(** * google-sheets-server: header flattening, keyed join, cache and snapshot

    A shallow embedding of the School Profile / School Performance servers
    (the TTL-cache variants and the snapshot-persistence variant of
    [server.js]) and the properties of their core: key-column location,
    three-row header flattening, keyed indices, inner and outer joins,
    the TTL cache, the manual refresh and the snapshot file.

    Modelling conventions.
    - JavaScript strings are [string]s over the ASCII range; [trim] and
      [toLowerCase] are the built-ins restricted to that range.
    - A spreadsheet cell is a JSON scalar: [null], a boolean, a number or a
      string.  Numbers are the integers, rendered in plain decimal.
    - [undefined] is the [None] of an [option].
    - A plain object used as a record is a [gmap string cell]; a [Map] is an
      insertion-ordered association list ([JsMap]); an array is a [list]. *)

From Stdlib Require Import ZArith Ascii String.
From stdpp Require Import base strings list gmap fin_maps pretty.

#[local] Set Warnings "-register-all".
Open Scope Z_scope.

(** ** JavaScript strings *)

Module Js.

(** White space removed by [String.prototype.trim]: TAB, LF, VT, FF, CR, SP. *)
Definition is_white_space (a : ascii) : bool :=
  let n := nat_of_ascii a in
  ((9 <=? n)%nat && (n <=? 13)%nat) || (n =? 32)%nat.

Definition lower_char (a : ascii) : ascii :=
  let n := nat_of_ascii a in
  if ((65 <=? n)%nat && (n <=? 90)%nat) then ascii_of_nat (n + 32) else a.

Fixpoint toLowerCase (s : string) : string :=
  match s with
  | EmptyString => EmptyString
  | String a s' => String (lower_char a) (toLowerCase s')
  end.

Definition upper_char (a : ascii) : ascii :=
  let n := nat_of_ascii a in
  if ((97 <=? n)%nat && (n <=? 122)%nat) then ascii_of_nat (n - 32) else a.

Fixpoint toUpperCase (s : string) : string :=
  match s with
  | EmptyString => EmptyString
  | String a s' => String (upper_char a) (toUpperCase s')
  end.

Fixpoint trimStart (s : string) : string :=
  match s with
  | EmptyString => EmptyString
  | String a s' => if is_white_space a then trimStart s' else s
  end.

Definition trimEnd (s : string) : string :=
  String.rev (trimStart (String.rev s)).

Definition trim (s : string) : string := trimEnd (trimStart s).

(** Nothing but white space. *)
Fixpoint blank (s : string) : bool :=
  match s with
  | EmptyString => true
  | String a s' => is_white_space a && blank s'
  end.

(** [s.startsWith(p)] *)
Fixpoint startsWith (s p : string) {struct p} : bool :=
  match p, s with
  | EmptyString, _ => true
  | String _ _, EmptyString => false
  | String b p', String a s' => if decide (a = b) then startsWith s' p' else false
  end.

(** [s.includes(sub)] *)
Fixpoint includes (s sub : string) : bool :=
  startsWith s sub ||
  match s with
  | EmptyString => false
  | String _ s' => includes s' sub
  end.

(** [sub] occurs somewhere inside [s]. *)
Definition occurs_in (sub s : string) : Prop :=
  ∃ pre post, s = pre +:+ sub +:+ post.

End Js.

(** ** Cell values *)

Inductive cell : Type :=
  | CNull
  | CBool (b : bool)
  | CNum (n : Z)
  | CStr (s : string).

Global Instance cell_eq_dec : EqDecision cell.
Proof. solve_decision. Defined.

(** A record is a plain object keyed by column label. *)
Abbreviation record := (gmap string cell).

(** ToBoolean *)
Definition truthy (v : cell) : bool :=
  match v with
  | CNull => false
  | CBool b => b
  | CNum n => negb (n =? 0)
  | CStr s => negb (String.eqb s "")
  end.

(** ToBoolean of a possibly undefined value *)
Definition truthy_opt (v : option cell) : bool :=
  match v with
  | None => false
  | Some c => truthy c
  end.

(** [String(v)], also the conversion of a template literal and of a
    property key. *)
Definition ToString (v : option cell) : string :=
  match v with
  | None => "undefined"
  | Some CNull => "null"
  | Some (CBool true) => "true"
  | Some (CBool false) => "false"
  | Some (CNum n) => pretty n
  | Some (CStr s) => s
  end.

(** [v ?? d] *)
Definition nullish_or (v : option cell) (d : cell) : cell :=
  match v with
  | None | Some CNull => d
  | Some c => c
  end.

(** [v != null] *)
Definition not_nullish (v : option cell) : bool :=
  match v with
  | None | Some CNull => false
  | Some _ => true
  end.

(** [`col_${i}`] *)
Definition col_ (i : nat) : string := "col_" +:+ pretty i.

(** ** Helpers of [server.js] *)

(** [String(h || "").trim().toLowerCase()] *)
Definition header_label (h : cell) : string :=
  Js.toLowerCase (Js.trim (if truthy h then ToString (Some h) else "")).

Definition isSchoolIdHeader (h : cell) : bool :=
  let s := header_label h in
  String.eqb s "school id" || String.eqb s "schoolid" ||
  (Js.includes s "school" && Js.includes s "id").

(** The key-column predicate in the words of the specification: the label,
    trimmed and lower-cased, equals "school id", equals "schoolid", or
    contains both "school" and "id". *)
Definition key_label_matches (h : cell) : Prop :=
  let s := header_label h in
  s = "school id" ∨ s = "schoolid" ∨ (Js.occurs_in "school" s ∧ Js.occurs_in "id" s).

(** The loop of [findSchoolIdIndex], started at index [i]. *)
Fixpoint findSchoolIdIndex_from (i : nat) (headers : list cell) : Z :=
  match headers with
  | [] => -1
  | h :: rest =>
      if isSchoolIdHeader h then Z.of_nat i
      else findSchoolIdIndex_from (S i) rest
  end.

Definition findSchoolIdIndex (headers : list cell) : Z :=
  findSchoolIdIndex_from 0 headers.

(** [headers.find(isSchoolIdHeader)] *)
Definition findSchoolIdHeader (headers : list cell) : option cell :=
  List.find isSchoolIdHeader headers.

(** The key of column [i]: [headerRow[i] || `col_${i}`], as a property key. *)
Definition column_key (headerRow : list cell) (i : nat) : string :=
  if truthy_opt (headerRow !! i) then ToString (headerRow !! i) else col_ i.

(** One row of [rowsToObjects]: the loop over the header positions. *)
Definition rowToObject (headerRow r : list cell) : record :=
  foldl (fun obj i => <[column_key headerRow i := nullish_or (r !! i) (CStr "")]> obj)
        ∅ (seq 0 (length headerRow)).

Definition rowsToObjects (rows : list (list cell)) (headerRow : list cell)
  : list record :=
  map (rowToObject headerRow) rows.

(** [Math.max(h1.length, h2.length, h3.length)] *)
Definition max3 (a b c : nat) : nat := Nat.max (Nat.max a b) c.

(** The label pushed at position [i] by [buildPerfFlatHeaders]. *)
Definition perf_label (h1 h2 h3 : list cell) (i : nat) : string :=
  let cat := nullish_or (h1 !! i) (CStr "") in
  let field := nullish_or (h2 !! i) (CStr "") in
  let year := nullish_or (h3 !! i) (CStr "") in
  let label :=
    Js.trim (ToString (Some cat) +:+ " | " +:+ ToString (Some field)
             +:+ " | " +:+ ToString (Some year)) in
  if (0 <? String.length label)%nat then label else col_ i.

Definition buildPerfFlatHeaders (h1 h2 h3 : list cell) : list string :=
  let width := max3 (length h1) (length h2) (length h3) in
  foldl (fun headers i => headers ++ [perf_label h1 h2 h3 i]) [] (seq 0 width).

(** ** [Map]: insertion-ordered association list *)

Module JsMap.
Section JsMap.
Context {V : Type}.

Definition t : Type := list (string * V).

(** [new Map()] *)
Definition empty : t := [].

(** [map.set(k, v)]: a present key keeps its position, a new key goes
    last. *)
Fixpoint set (k : string) (v : V) (m : t) : t :=
  match m with
  | [] => [(k, v)]
  | (k', v') :: rest =>
      if decide (k = k') then (k, v) :: rest else (k', v') :: set k v rest
  end.

(** [map.get(k)] *)
Fixpoint get (m : t) (k : string) : option V :=
  match m with
  | [] => None
  | (k', v') :: rest => if decide (k = k') then Some v' else get rest k
  end.

(** [map.has(k)] *)
Definition has (m : t) (k : string) : bool :=
  match get m k with
  | Some _ => true
  | None => false
  end.

(** [[...map.keys()]] *)
Definition keys (m : t) : list string := fst <$> m.
End JsMap.
Arguments t : clear implicits.
End JsMap.

(** [new Set(xs)], spread in insertion order: the first occurrence of each
    element is kept. *)
Definition set_add (acc : list string) (x : string) : list string :=
  if decide (x ∈ acc) then acc else acc ++ [x].

Definition newSet (xs : list string) : list string := foldl set_add [] xs.

(** ** Datasets and keyed indices *)

Record Dataset : Type := mkDataset {
  headers : list cell;
  rows : list (list cell);
  data : list record;
}.

Record JoinResult : Type := mkJoinResult {
  count : nat;
  joined : list record;
}.

(** The test of the loop of [toKeyedBySchoolId]:
    [id !== undefined && id !== ""]. *)
Definition usable_id (id : option cell) : bool :=
  match id with
  | None => false
  | Some (CStr s) => negb (String.eqb s "")
  | Some _ => true
  end.

(** One iteration of the loop of [toKeyedBySchoolId]. *)
Definition index_step (keyName : string) (map : JsMap.t record) (r : record)
  : JsMap.t record :=
  let id := r !! keyName in
  if usable_id id then JsMap.set (ToString id) r map else map.

Definition toKeyedBySchoolId (objs : list record) (headerRow : list cell)
  : JsMap.t record :=
  let idx := findSchoolIdIndex headerRow in
  if idx <? 0 then JsMap.empty
  else
    let keyName := ToString (headerRow !! Z.to_nat idx) in
    foldl (index_step keyName) JsMap.empty objs.

(** In the words of the specification: the record's value at the key field
    is neither undefined nor the empty string, and its stringified form is
    [k]. *)
Definition indexed_under (keyName k : string) (r : record) : Prop :=
  r !! keyName ≠ None ∧ r !! keyName ≠ Some (CStr "") ∧ ToString (r !! keyName) = k.

Global Instance indexed_under_dec keyName k r : Decision (indexed_under keyName k r).
Proof. unfold indexed_under. apply _. Defined.

(** ** Join engine *)

(** [{ ...p, ...q }] *)
Definition spread (p q : record) : record := q ∪ p.

(** [header && rec[header] != null], and the value read. *)
Definition side_value (header : option cell) (rec : record) : option cell :=
  if truthy_opt header && not_nullish (rec !! ToString header)
  then rec !! ToString header else None.

(** The body of the join loops: merge both sides of [id] and make sure of
    a ["School ID"] field. *)
Definition merge_row (schoolIdHeaderProfile schoolIdHeaderPerf : option cell)
    (pMap qMap : JsMap.t record) (id : string) : record :=
  let p := default ∅ (JsMap.get pMap id) in
  let q := default ∅ (JsMap.get qMap id) in
  let row := spread p q in
  if negb (truthy_opt (row !! "School ID")) then
    match side_value schoolIdHeaderProfile p with
    | Some v => <["School ID" := v]> row
    | None =>
        match side_value schoolIdHeaderPerf q with
        | Some v => <["School ID" := v]> row
        | None => <["School ID" := CStr id]> row
        end
    end
  else row.

(** The loop [for (const id of ids) { ...; merged.push(row) }]. *)
Definition merge_all (hp hq : option cell) (pMap qMap : JsMap.t record)
    (ids : list string) : list record :=
  foldl (fun merged id => merged ++ [merge_row hp hq pMap qMap id]) [] ids.

(** [[...pMap.keys()].filter((id) => qMap.has(id))] *)
Definition inner_ids (pMap qMap : JsMap.t record) : list string :=
  List.filter (JsMap.has qMap) (JsMap.keys pMap).

(** [new Set([...pMap.keys(), ...qMap.keys()])] *)
Definition outer_ids (pMap qMap : JsMap.t record) : list string :=
  newSet (JsMap.keys pMap ++ JsMap.keys qMap).

(** The inner join of [getJoinedFull] and of [refreshAll]. *)
Definition innerJoin (profile perf : Dataset) : JoinResult :=
  let pMap := toKeyedBySchoolId (data profile) (headers profile) in
  let qMap := toKeyedBySchoolId (data perf) (headers perf) in
  let schoolIdHeaderProfile := findSchoolIdHeader (headers profile) in
  let schoolIdHeaderPerf := findSchoolIdHeader (headers perf) in
  let ids := inner_ids pMap qMap in
  let merged := merge_all schoolIdHeaderProfile schoolIdHeaderPerf pMap qMap ids in
  {| count := length merged; joined := merged |}.

(** The outer join of the [/api/schools] handler. *)
Definition outerJoin (profile perf : Dataset) : JoinResult :=
  let pMap := toKeyedBySchoolId (data profile) (headers profile) in
  let qMap := toKeyedBySchoolId (data perf) (headers perf) in
  let allIds := outer_ids pMap qMap in
  let schoolIdHeaderProfile := findSchoolIdHeader (headers profile) in
  let schoolIdHeaderPerf := findSchoolIdHeader (headers perf) in
  let out := merge_all schoolIdHeaderProfile schoolIdHeaderPerf pMap qMap allIds in
  {| count := length out; joined := out |}.

(** In the words of the specification: a record's value at a side's
    detected key-field name, when there is one. *)
Definition value_at (keyField : option cell) (rec : record) : option cell :=
  match keyField with
  | None => None
  | Some h =>
      match rec !! ToString (Some h) with
      | None | Some CNull => None
      | Some v => Some v
      end
  end.

(** In the words of the specification: what fills a missing "School ID":
    the left value, else the right value, else the join key itself. *)
Definition school_id_fill (leftKey rightKey : option cell) (p q : record)
    (id : string) : cell :=
  match value_at leftKey p with
  | Some v => v
  | None =>
      match value_at rightKey q with
      | Some v => v
      | None => CStr id
      end
  end.

(** The tables of the specification's join examples: profile keys 1, 2, 3
    and performance keys 2, 3, 4. *)
Definition example_profile : Dataset :=
  let header := [CStr "School ID"; CStr "Name"] in
  let dataRows := [[CStr "1"; CStr "A"]; [CStr "2"; CStr "B"]; [CStr "3"; CStr "C"]] in
  mkDataset header dataRows (rowsToObjects dataRows header).

Definition example_performance : Dataset :=
  let flat := CStr <$> buildPerfFlatHeaders [CStr "School"; CStr "Results"]
                                            [CStr "ID"; CStr "Score"]
                                            [CStr ""; CNum 2021] in
  let dataRows := [[CStr "2"; CNum 20]; [CStr "3"; CNum 30]; [CStr "4"; CNum 40]] in
  mkDataset flat dataRows (rowsToObjects dataRows flat).

(** ** The key-column subset *)

(** The loop of [a1ToIndex] over the characters of the label. *)
Fixpoint a1_acc (n : Z) (label : string) : Z :=
  match label with
  | EmptyString => n
  | String ch rest => a1_acc (n * 26 + (Z.of_nat (nat_of_ascii ch) - 64)) rest
  end.

Definition a1ToIndex (colLabel : string) : Z :=
  a1_acc 0 (Js.toUpperCase colLabel) - 1.

Definition AB_IDX : Z := a1ToIndex "AB".
Definition AU_IDX : Z := a1ToIndex "AU".

(** The indices pushed by
    [for (let i = AB_IDX; i <= AU_IDX && i < headers.length; i++)]. *)
Definition key_range (width : nat) : list nat :=
  let stop := Nat.min (Z.to_nat (AU_IDX + 1)) width in
  seq (Z.to_nat AB_IDX) (stop - Z.to_nat AB_IDX).

Definition filterToKeyCols (rows : list (list cell)) (headers : list cell)
  : list cell * list (list cell) :=
  let schoolIdx := findSchoolIdIndex headers in
  let idxs :=
    (if 0 <=? schoolIdx then [Z.to_nat schoolIdx] else []) ++ key_range (length headers) in
  let outHeaders := omap (fun i => headers !! i) idxs in
  let outRows := map (fun r => map (fun i => nullish_or (r !! i) (CStr "")) idxs) rows in
  (outHeaders, outRows).

(** ** Effects: state, exceptions and the outside world *)

(** The outcome of running a piece of code: it returns, or it throws an
    error carrying a message. *)
Inductive outcome (A : Type) : Type :=
  | Return (a : A)
  | Throw (msg : string).
Arguments Return {A} a.
Arguments Throw {A} msg.

(** A computation over a store [S]: the store it leaves behind is kept
    also when it throws. *)
Definition M (S A : Type) : Type := S → outcome A * S.

Definition ret {S A} (a : A) : M S A := fun st => (Return a, st).

Definition throw {S A} (msg : string) : M S A := fun st => (Throw msg, st).

Definition bind {S A B} (m : M S A) (k : A → M S B) : M S B :=
  fun st =>
    match m st with
    | (Return a, st') => k a st'
    | (Throw msg, st') => (Throw msg, st')
    end.

(** [try { m } catch (e) { h(e.message) }] *)
Definition try_catch {S A} (m : M S A) (h : string → M S A) : M S A :=
  fun st =>
    match m st with
    | (Return a, st') => (Return a, st')
    | (Throw msg, st') => h msg st'
    end.

Definition get_state {S} : M S S := fun st => (Return st, st).

Definition modify {S} (f : S → S) : M S unit := fun st => (Return tt, f st).

(** stdpp's monad notations [x ← m; k] and [m;; k] for [M S]. *)
Global Instance M_ret {S} : MRet (M S) := fun A => @ret S A.
Global Instance M_bind {S} : MBind (M S) := fun A B k m => bind m k.

(** The counters shared by all variants of the server. *)
Record Stats : Type := mkStats {
  totalRequests : nat;
  cacheHits : nat;
  cacheMisses : nat;
  apiCalls : nat;
  errors : nat;
  lastApiCall : option string;
}.

Definition stats0 : Stats := mkStats 0 0 0 0 0 None.

(** [increment(name)]; the server passes ["apiCalls"] and ["errors"] only,
    a name that is no counter leaves the counters as they are. *)
Definition increment (name : string) (s : Stats) : Stats :=
  if decide (name = "totalRequests") then
    mkStats (S (totalRequests s)) (cacheHits s) (cacheMisses s) (apiCalls s) (errors s) (lastApiCall s)
  else if decide (name = "cacheHits") then
    mkStats (totalRequests s) (S (cacheHits s)) (cacheMisses s) (apiCalls s) (errors s) (lastApiCall s)
  else if decide (name = "cacheMisses") then
    mkStats (totalRequests s) (cacheHits s) (S (cacheMisses s)) (apiCalls s) (errors s) (lastApiCall s)
  else if decide (name = "apiCalls") then
    mkStats (totalRequests s) (cacheHits s) (cacheMisses s) (S (apiCalls s)) (errors s) (lastApiCall s)
  else if decide (name = "errors") then
    mkStats (totalRequests s) (cacheHits s) (cacheMisses s) (apiCalls s) (S (errors s)) (lastApiCall s)
  else s.

Definition set_lastApiCall (t : string) (s : Stats) : Stats :=
  mkStats (totalRequests s) (cacheHits s) (cacheMisses s) (apiCalls s) (errors s) (Some t).

(** How the process is configured to reach the spreadsheet. *)
Inductive Credentials : Type :=
  | ServiceAccount
  | ApiKey
  | NoCredentials.

(** The outside world.  Every interaction with it (an upstream request, a
    reading of the clock, a file operation) is numbered; the number of the
    next one is the [tick] of the store, and the world answers the [n]-th
    interaction as these functions say. *)
Record Env : Type := mkEnv {
  SPREADSHEET_ID : string;
  credentials : Credentials;
  (** [auth.authorize()]: [Some msg] when it rejects *)
  authorize : nat → option string;
  (** [sheets.spreadsheets.values.get]: it rejects, or answers with
      [res.data.values], which is absent for a range without data *)
  values_get : nat → string → outcome (option (list (list cell)));
  (** [Date.now()] *)
  Date_now : nat → Z;
  (** [new Date().toISOString()] *)
  Date_toISOString : nat → string;
  (** [fs.writeFileSync], [fs.renameSync], [fs.readFileSync]: [Some msg]
      when the operation throws *)
  fs_error : nat → option string;
}.

Definition PROFILE_RANGE : string := "School Profile!A:AI".
Definition PERF_HEADERS_RANGE : string := "School Performance!1:3".
Definition PERF_DATA_RANGE : string := "School Performance!4:100000".

(** [values.slice(1)] *)
Definition slice1 {A} (l : list A) : list A := drop 1 l.

(** [headerRows[i] || []] *)
Definition row_or_empty (headerRows : list (list cell)) (i : nat) : list cell :=
  default [] (headerRows !! i).

(** The profile dataset that [refreshAll] builds from the fetched values. *)
Definition refreshed_profile (values : list (list cell)) : Dataset :=
  let header := default [] (values !! 0%nat) in
  let dataRows := if (1 <? length values)%nat then slice1 values else [] in
  mkDataset header dataRows (rowsToObjects dataRows header).

(** The performance dataset that [refreshAll] builds from the fetched
    header rows and data rows. *)
Definition refreshed_performance (headerRows perfRows : list (list cell)) : Dataset :=
  let h1 := row_or_empty headerRows 0 in
  let h2 := row_or_empty headerRows 1 in
  let h3 := row_or_empty headerRows 2 in
  let flat := CStr <$> buildPerfFlatHeaders h1 h2 h3 in
  mkDataset flat perfRows (rowsToObjects perfRows flat).


(** ** The [/api/schools] request *)

(** A value of [req.query], as the query parser builds it: a string, an
    array for a repeated parameter, an object for a bracketed one. *)
Inductive qvalue : Type :=
  | QString (s : string)
  | QArray (items : list qvalue)
  | QObject (members : list (string * qvalue)).

(** [items.join(",")] on strings *)
Fixpoint join_comma (items : list string) : string :=
  match items with
  | [] => ""
  | [x] => x
  | x :: rest => x +:+ "," +:+ join_comma rest
  end.

(** [v.toString()] *)
Fixpoint qToString (v : qvalue) : string :=
  match v with
  | QString s => s
  | QArray items => join_comma (map qToString items)
  | QObject _ => "[object Object]"
  end.

(** [(req.query.onlyMatched ?? "true").toString().toLowerCase() !== "false"];
    [None] is an absent parameter. *)
Definition onlyMatched (q : option qvalue) : bool :=
  negb (String.eqb (Js.toLowerCase (qToString (default (QString "true") q))) "false").

(** In the words of the specification: the parameter is there and its
    value, converted to a string and lower-cased, is exactly "false". *)
Definition asks_for_outer (q : option qvalue) : Prop :=
  match q with
  | Some v => Js.toLowerCase (qToString v) = "false"
  | None => False
  end.

Global Instance asks_for_outer_dec q : Decision (asks_for_outer q).
Proof. destruct q; apply _. Defined.


(** What a handler answers: [res.json(body)], or
    [res.status(500).json({ error })]. *)
Inductive response (A : Type) : Type :=
  | Json200 (body : A)
  | Error500 (error : string).
Arguments Json200 {A} body.
Arguments Error500 {A} error.

(** [res.status(500)] was answered. *)
Definition is_500 {A} (r : response A) : bool :=
  match r with
  | Json200 _ => false
  | Error500 _ => true
  end.

(** ** The snapshot-persistence server *)

Module Snap.

(** The in-memory [SNAPSHOT]; [None] is [null]. *)
Record Snapshot : Type := mkSnapshot {
  profile : option Dataset;
  performance : option Dataset;
  joinedMatched : option JoinResult;
  lastUpdated : option string;
  lastReason : option string;
}.

Definition SNAPSHOT0 : Snapshot := mkSnapshot None None None None None.

(** The counters written to the snapshot file. *)
Record StatsDoc : Type := mkStatsDoc {
  j_apiCalls : nat;
  j_totalRequests : nat;
  j_cacheHits : nat;
  j_cacheMisses : nat;
  j_lastApiCall : option string;
}.

(** The JSON document of the snapshot file.  [JSON.stringify] and
    [JSON.parse] are inverse on such documents, so a file that parses is
    given by its document; [None] is an absent or [null] member. *)
Record Document : Type := mkDocument {
  j_profile : option Dataset;
  j_performance : option Dataset;
  j_joinedMatched : option JoinResult;
  j_lastUpdated : option string;
  j_lastReason : option string;
  j_stats : option StatsDoc;
}.

Inductive file : Type :=
  | Unparseable
  | Json (j : Document).

(** [SNAPSHOT_FILE] and [SNAPSHOT_FILE + ".tmp"]; [None] when the file does
    not exist. *)
Record Disk : Type := mkDisk {
  snapshot_file : option file;
  tmp_file : option file;
}.

Record Store : Type := mkStore {
  SNAPSHOT : Snapshot;
  stats : Stats;
  disk : Disk;
  tick : nat;
}.

Definition with_SNAPSHOT (f : Snapshot → Snapshot) (st : Store) : Store :=
  mkStore (f (SNAPSHOT st)) (stats st) (disk st) (tick st).
Definition with_stats (f : Stats → Stats) (st : Store) : Store :=
  mkStore (SNAPSHOT st) (f (stats st)) (disk st) (tick st).
Definition with_disk (f : Disk → Disk) (st : Store) : Store :=
  mkStore (SNAPSHOT st) (stats st) (f (disk st)) (tick st).

Definition set_profile (v : option Dataset) (s : Snapshot) : Snapshot :=
  mkSnapshot v (performance s) (joinedMatched s) (lastUpdated s) (lastReason s).
Definition set_performance (v : option Dataset) (s : Snapshot) : Snapshot :=
  mkSnapshot (profile s) v (joinedMatched s) (lastUpdated s) (lastReason s).
Definition set_joinedMatched (v : option JoinResult) (s : Snapshot) : Snapshot :=
  mkSnapshot (profile s) (performance s) v (lastUpdated s) (lastReason s).
Definition set_lastUpdated (v : option string) (s : Snapshot) : Snapshot :=
  mkSnapshot (profile s) (performance s) (joinedMatched s) v (lastReason s).
Definition set_lastReason (v : option string) (s : Snapshot) : Snapshot :=
  mkSnapshot (profile s) (performance s) (joinedMatched s) (lastUpdated s) v.

(** [x || null] on a string member: the empty string is falsy. *)
Definition string_or_null (x : option string) : option string :=
  match x with
  | Some s => if String.eqb s "" then None else Some s
  | None => None
  end.

(** [Object.assign(stats, j.stats)] *)
Definition assign_stats (d : StatsDoc) (s : Stats) : Stats :=
  mkStats (j_totalRequests d) (j_cacheHits d) (j_cacheMisses d) (j_apiCalls d)
          (errors s) (j_lastApiCall d).

(** The result of a save or a load: [{ ok: true, file }] or
    [{ ok: false, error }]. *)
Inductive DiskResult : Type :=
  | DiskOk
  | DiskFailed (error : string).

Record RefreshMeta : Type := mkRefreshMeta {
  meta_lastUpdated : option string;
  meta_lastReason : string;
  durationMs : Z;
  profileHeaders : nat;
  profileRows : nat;
  performanceHeaders : nat;
  performanceRows : nat;
  joinedRows : nat;
  snapshotFile_exists : bool;
  saveResult : DiskResult;
}.


(** The document that [snapshotToSerializable] builds from the snapshot and
    the counters. *)
Definition serializable (snap : Snapshot) (s : Stats) : Document :=
  {| j_profile := profile snap;
     j_performance := performance snap;
     j_joinedMatched := joinedMatched snap;
     j_lastUpdated := lastUpdated snap;
     j_lastReason := lastReason snap;
     j_stats := Some {| j_apiCalls := apiCalls s;
                        j_totalRequests := totalRequests s;
                        j_cacheHits := cacheHits s;
                        j_cacheMisses := cacheMisses s;
                        j_lastApiCall := lastApiCall s |} |}.

Section Server.
Variable env : Env.

(** The next interaction with the outside world, answered by [f]. *)
Definition interact {A} (f : nat → A) : M Store A :=
  fun st => (Return (f (tick st)),
             mkStore (SNAPSHOT st) (stats st) (disk st) (S (tick st))).

Definition snapshotToSerializable : M Store Document :=
  st ← get_state;
  mret (serializable (SNAPSHOT st) (stats st)).

(** A file operation: it throws when the world says so, and changes the
    disk by [f] otherwise. *)
Definition fs_op (f : Disk → Disk) : M Store unit :=
  e ← interact (fs_error env);
  match e with
  | Some msg => throw msg
  | None => modify (with_disk f)
  end.

Definition saveSnapshotToDisk : M Store DiskResult :=
  try_catch
    (j ← snapshotToSerializable;
     fs_op (fun d => mkDisk (snapshot_file d) (Some (Json j)));;
     fs_op (fun d => mkDisk (tmp_file d) None);;
     mret DiskOk)
    (fun e => mret (DiskFailed e)).

Definition loadSnapshotFromDisk : M Store DiskResult :=
  try_catch
    (st ← get_state;
     match snapshot_file (disk st) with
     | None => mret (DiskFailed "file not found")
     | Some raw =>
         fs_op (fun d => d);;
         match raw with
         | Unparseable => throw "Unexpected token in JSON"
         | Json j =>
             modify (with_SNAPSHOT (set_profile (j_profile j)));;
             modify (with_SNAPSHOT (set_performance (j_performance j)));;
             modify (with_SNAPSHOT (set_joinedMatched (j_joinedMatched j)));;
             modify (with_SNAPSHOT (set_lastUpdated (string_or_null (j_lastUpdated j))));;
             modify (with_SNAPSHOT (set_lastReason (string_or_null (j_lastReason j))));;
             match j_stats j with
             | Some d => modify (with_stats (assign_stats d))
             | None => mret tt
             end;;
             mret DiskOk
         end
     end)
    (fun e => mret (DiskFailed e)).

Definition snapshotFileInfo : M Store bool :=
  st ← get_state;
  mret (bool_decide (is_Some (snapshot_file (disk st)))).

Definition getSheetsClient : M Store unit :=
  if String.eqb (SPREADSHEET_ID env) "" then
    throw "SPREADSHEET_ID env var is required."
  else
    match credentials env with
    | ServiceAccount =>
        r ← interact (authorize env);
        match r with
        | Some msg => throw msg
        | None => mret tt
        end
    | ApiKey => mret tt
    | NoCredentials =>
        throw "Either GOOGLE_SERVICE_ACCOUNT_KEY or GOOGLE_API_KEY must be set"
    end.

Definition getSheetValues (range : string) : M Store (list (list cell)) :=
  modify (with_stats (increment "apiCalls"));;
  now ← interact (Date_toISOString env);
  modify (with_stats (set_lastApiCall now));;
  res ← interact (fun n => values_get env n range);
  match res with
  | Throw msg => throw msg
  | Return values => mret (default [] values)
  end.

Definition count_request : M Store unit :=
  modify (with_stats (increment "totalRequests")).
Definition count_hit : M Store unit :=
  modify (with_stats (increment "cacheHits")).
Definition count_miss : M Store unit :=
  modify (with_stats (increment "cacheMisses")).

(** Snapshot-aware getters: fetch only when the snapshot is empty. *)
Definition getProfile : M Store Dataset :=
  count_request;;
  st ← get_state;
  match profile (SNAPSHOT st) with
  | Some cached => count_hit;; mret cached
  | None =>
      count_miss;;
      getSheetsClient;;
      values ← getSheetValues PROFILE_RANGE;
      match values with
      | [] => mret (mkDataset [] [] [])
      | header :: _ =>
          let dataRows := slice1 values in
          let result := mkDataset header dataRows (rowsToObjects dataRows header) in
          modify (with_SNAPSHOT (set_profile (Some result)));;
          mret result
      end
  end.

Definition getPerformanceFull : M Store Dataset :=
  count_request;;
  st ← get_state;
  match performance (SNAPSHOT st) with
  | Some cached => count_hit;; mret cached
  | None =>
      count_miss;;
      getSheetsClient;;
      headerRows ← getSheetValues PERF_HEADERS_RANGE;
      dataRows ← getSheetValues PERF_DATA_RANGE;
      let h1 := row_or_empty headerRows 0 in
      let h2 := row_or_empty headerRows 1 in
      let h3 := row_or_empty headerRows 2 in
      let flatHeaders := CStr <$> buildPerfFlatHeaders h1 h2 h3 in
      let result := mkDataset flatHeaders dataRows (rowsToObjects dataRows flatHeaders) in
      modify (with_SNAPSHOT (set_performance (Some result)));;
      mret result
  end.

(** The two getters are started together by [Promise.all]; here the
    profile is read first and the performance table second. *)
Definition getJoinedFull : M Store JoinResult :=
  count_request;;
  st ← get_state;
  match joinedMatched (SNAPSHOT st) with
  | Some cached => count_hit;; mret cached
  | None =>
      count_miss;;
      profile ← getProfile;
      perf ← getPerformanceFull;
      let result := innerJoin profile perf in
      modify (with_SNAPSHOT (set_joinedMatched (Some result)));;
      mret result
  end.

(** Manual refresh: pull everything, store the snapshot, save it to
    disk.  [reason] is [None] when the caller passes no argument. *)
Definition refreshAll (reason : option string) : M Store RefreshMeta :=
  let reason := default "manual" reason in
  started ← interact (Date_now env);
  getSheetsClient;;
  values ← getSheetValues PROFILE_RANGE;
  let profile := refreshed_profile values in
  headerRows ← getSheetValues PERF_HEADERS_RANGE;
  perfRows ← getSheetValues PERF_DATA_RANGE;
  let performance := refreshed_performance headerRows perfRows in
  let merged := innerJoin profile performance in
  modify (with_SNAPSHOT (set_profile (Some profile)));;
  modify (with_SNAPSHOT (set_performance (Some performance)));;
  modify (with_SNAPSHOT (set_joinedMatched (Some merged)));;
  now ← interact (Date_toISOString env);
  modify (with_SNAPSHOT (set_lastUpdated (Some now)));;
  modify (with_SNAPSHOT (set_lastReason (Some reason)));;
  saveRes ← saveSnapshotToDisk;
  finished ← interact (Date_now env);
  st ← get_state;
  info ← snapshotFileInfo;
  mret {| meta_lastUpdated := lastUpdated (SNAPSHOT st);
          meta_lastReason := reason;
          durationMs := finished - started;
          profileHeaders := length (headers profile);
          profileRows := length (data profile);
          performanceHeaders := length (headers performance);
          performanceRows := length (data performance);
          joinedRows := count merged;
          snapshotFile_exists := info;
          saveResult := saveRes |}.


(** [app.get("/api/schools")]: inner join by default, outer join when
    asked for. *)
Definition api_schools (q : option qvalue) : M Store (response JoinResult) :=
  try_catch
    (if onlyMatched q then
       result ← getJoinedFull;
       mret (Json200 result)
     else
       profile ← getProfile;
       perf ← getPerformanceFull;
       mret (Json200 (outerJoin profile perf)))
    (fun msg =>
       modify (with_stats (increment "errors"));;
       mret (Error500 msg)).
(** The [catch] of the routes: count an error, answer 500 with the
    message. *)
Definition answer_500 {A} (msg : string) : M Store (response A) :=
  modify (with_stats (increment "errors"));;
  mret (Error500 msg).

(** [app.get("/api/profile")] *)
Definition api_profile : M Store (response Dataset) :=
  try_catch (data ← getProfile; mret (Json200 data)) answer_500.

(** [app.get("/api/performance")] *)
Definition api_performance : M Store (response Dataset) :=
  try_catch (data ← getPerformanceFull; mret (Json200 data)) answer_500.

(** [app.get("/api/performance/key")] *)
Definition api_performance_key : M Store (response Dataset) :=
  try_catch
    (full ← getPerformanceFull;
     let '(headers, rows) := filterToKeyCols (rows full) (headers full) in
     let data := rowsToObjects rows headers in
     mret (Json200 (mkDataset headers rows data)))
    answer_500.


End Server.
End Snap.

(** ** The TTL-cache server *)

Module Ttl.

(** [new NodeCache({ stdTTL: 60 })]: every entry carries the time at which
    it expires, in milliseconds.  The datasets and the join results are
    kept under different keys; the model holds them in two maps. *)
Definition stdTTL : Z := 60.

Record Store : Type := mkStore {
  cache_datasets : gmap string (Dataset * Z);
  cache_joins : gmap string (JoinResult * Z);
  stats : Stats;
  tick : nat;
}.

Definition with_stats (f : Stats → Stats) (st : Store) : Store :=
  mkStore (cache_datasets st) (cache_joins st) (f (stats st)) (tick st).
Definition with_datasets (f : gmap string (Dataset * Z) → gmap string (Dataset * Z))
    (st : Store) : Store :=
  mkStore (f (cache_datasets st)) (cache_joins st) (stats st) (tick st).
Definition with_joins (f : gmap string (JoinResult * Z) → gmap string (JoinResult * Z))
    (st : Store) : Store :=
  mkStore (cache_datasets st) (f (cache_joins st)) (stats st) (tick st).

(** The check of [cache.get]: an entry whose time is over is dropped. *)
Definition live {A} (now : Z) (e : A * Z) : bool :=
  negb (negb (e.2 =? 0) && (e.2 <? now)).

Section Server.
Variable env : Env.

Definition interact {A} (f : nat → A) : M Store A :=
  fun st => (Return (f (tick st)),
             mkStore (cache_datasets st) (cache_joins st) (stats st) (S (tick st))).

(** [cache.get(key)] on a dataset key *)
Definition cache_get_dataset (key : string) : M Store (option Dataset) :=
  now ← interact (Date_now env);
  st ← get_state;
  match cache_datasets st !! key with
  | Some e =>
      if live now e then mret (Some e.1)
      else modify (with_datasets (delete key));; mret None
  | None => mret None
  end.

(** [cache.set(key, value)] on a dataset key *)
Definition cache_set_dataset (key : string) (value : Dataset) : M Store unit :=
  now ← interact (Date_now env);
  modify (with_datasets (insert key (value, now + stdTTL * 1000))).

Definition cache_get_join (key : string) : M Store (option JoinResult) :=
  now ← interact (Date_now env);
  st ← get_state;
  match cache_joins st !! key with
  | Some e =>
      if live now e then mret (Some e.1)
      else modify (with_joins (delete key));; mret None
  | None => mret None
  end.

Definition cache_set_join (key : string) (value : JoinResult) : M Store unit :=
  now ← interact (Date_now env);
  modify (with_joins (insert key (value, now + stdTTL * 1000))).

Definition getSheetsClient : M Store unit :=
  if String.eqb (SPREADSHEET_ID env) "" then
    throw "SPREADSHEET_ID env var is required."
  else
    match credentials env with
    | ServiceAccount =>
        r ← interact (authorize env);
        match r with
        | Some msg => throw msg
        | None => mret tt
        end
    | ApiKey => mret tt
    | NoCredentials =>
        throw "Either GOOGLE_SERVICE_ACCOUNT_KEY or GOOGLE_API_KEY must be set."
    end.

Definition getSheetValues (range : string) : M Store (list (list cell)) :=
  modify (with_stats (increment "apiCalls"));;
  now ← interact (Date_toISOString env);
  modify (with_stats (set_lastApiCall now));;
  res ← interact (fun n => values_get env n range);
  match res with
  | Throw msg => throw msg
  | Return values => mret (default [] values)
  end.

Definition count_request : M Store unit :=
  modify (with_stats (increment "totalRequests")).
Definition count_hit : M Store unit :=
  modify (with_stats (increment "cacheHits")).
Definition count_miss : M Store unit :=
  modify (with_stats (increment "cacheMisses")).

Definition getProfile : M Store Dataset :=
  let cacheKey := "profile_full" in
  count_request;;
  cached ← cache_get_dataset cacheKey;
  match cached with
  | Some cached => count_hit;; mret cached
  | None =>
      count_miss;;
      getSheetsClient;;
      values ← getSheetValues PROFILE_RANGE;
      match values with
      | [] => mret (mkDataset [] [] [])
      | header :: _ =>
          let dataRows := slice1 values in
          let result := mkDataset header dataRows (rowsToObjects dataRows header) in
          cache_set_dataset cacheKey result;;
          mret result
      end
  end.

Definition getPerformanceFull : M Store Dataset :=
  let cacheKey := "performance_full" in
  count_request;;
  cached ← cache_get_dataset cacheKey;
  match cached with
  | Some cached => count_hit;; mret cached
  | None =>
      count_miss;;
      getSheetsClient;;
      headerRows ← getSheetValues PERF_HEADERS_RANGE;
      dataRows ← getSheetValues PERF_DATA_RANGE;
      let h1 := row_or_empty headerRows 0 in
      let h2 := row_or_empty headerRows 1 in
      let h3 := row_or_empty headerRows 2 in
      let flatHeaders := CStr <$> buildPerfFlatHeaders h1 h2 h3 in
      let result := mkDataset flatHeaders dataRows (rowsToObjects dataRows flatHeaders) in
      cache_set_dataset cacheKey result;;
      mret result
  end.

Definition getPerformanceKey : M Store Dataset :=
  let cacheKey := "performance_key" in
  count_request;;
  cached ← cache_get_dataset cacheKey;
  match cached with
  | Some cached => count_hit;; mret cached
  | None =>
      count_miss;;
      full ← getPerformanceFull;
      let '(headers, rows) := filterToKeyCols (rows full) (headers full) in
      let result := mkDataset headers rows (rowsToObjects rows headers) in
      cache_set_dataset cacheKey result;;
      mret result
  end.

(** The two getters are started together by [Promise.all]; here the
    profile is read first and the performance table second. *)
Definition getJoinedFull : M Store JoinResult :=
  let cacheKey := "joined_full_matched" in
  count_request;;
  cached ← cache_get_join cacheKey;
  match cached with
  | Some cached => count_hit;; mret cached
  | None =>
      count_miss;;
      profile ← getProfile;
      perf ← getPerformanceFull;
      let result := innerJoin profile perf in
      cache_set_join cacheKey result;;
      mret result
  end.

Definition api_schools (q : option qvalue) : M Store (response JoinResult) :=
  try_catch
    (if onlyMatched q then
       result ← getJoinedFull;
       mret (Json200 result)
     else
       profile ← getProfile;
       perf ← getPerformanceFull;
       mret (Json200 (outerJoin profile perf)))
    (fun msg =>
       modify (with_stats (increment "errors"));;
       mret (Error500 msg)).
(** The [catch] of the routes: count an error, answer 500 with the
    message. *)
Definition answer_500 {A} (msg : string) : M Store (response A) :=
  modify (with_stats (increment "errors"));;
  mret (Error500 msg).

(** [app.get("/api/profile")] *)
Definition api_profile : M Store (response Dataset) :=
  try_catch (data ← getProfile; mret (Json200 data)) answer_500.

(** [app.get("/api/performance")] *)
Definition api_performance : M Store (response Dataset) :=
  try_catch (data ← getPerformanceFull; mret (Json200 data)) answer_500.

(** [app.get("/api/performance/key")] *)
Definition api_performance_key : M Store (response Dataset) :=
  try_catch (data ← getPerformanceKey; mret (Json200 data)) answer_500.
End Server.
End Ttl.

(** ** Specifications of computations *)

(** Every returning run of [m] from a store in [P] ends with a value and a
    store in [Q]. *)
Definition on_return {S A} (P : S → Prop) (m : M S A) (Q : A → S → Prop) : Prop :=
  ∀ st a st', P st → m st = (Return a, st') → Q a st'.

(** Every run of [m] from a store in [P], returning or throwing, ends in a
    store in [Q]. *)
Definition on_exit {S A} (P : S → Prop) (m : M S A) (Q : S → Prop) : Prop :=
  ∀ st, P st → Q (m st).2.

(** [m] never throws. *)
Definition never_throws {S A} (m : M S A) : Prop :=
  ∀ st, ∃ a, (m st).1 = Return a.

(** Requests counted and not yet accounted for as a hit or a miss. *)
Definition pending (s : Stats) : Z :=
  Z.of_nat (totalRequests s) - Z.of_nat (cacheHits s) - Z.of_nat (cacheMisses s).

(** The requests of the TTL-cache store not yet accounted for are [k]. *)
Definition ttl_owes (k : Z) (st : Ttl.Store) : Prop := pending (Ttl.stats st) = k.

(** [m] leaves the account of the requests as it finds it, however it
    ends. *)
Definition ttl_settled {A} (m : M Ttl.Store A) : Prop :=
  ∀ k, on_exit (ttl_owes k) m (ttl_owes k).

(** [m] leaves the error counter as it finds it, however it ends. *)
Definition keeps_errors {S A} (stats_of : S → Stats) (m : M S A) : Prop :=
  ∀ k, on_exit (fun st => errors (stats_of st) = k) m
               (fun st => errors (stats_of st) = k).

(** ** Example worlds *)

(** A spreadsheet holding the tables of the join examples. *)
Definition example_sheet (range : string) : option (list (list cell)) :=
  if decide (range = PROFILE_RANGE) then
    Some (headers example_profile :: rows example_profile)
  else if decide (range = PERF_HEADERS_RANGE) then
    Some [[CStr "School"; CStr "Results"]; [CStr "ID"; CStr "Score"]; [CStr ""; CNum 2021]]
  else if decide (range = PERF_DATA_RANGE) then
    Some (rows example_performance)
  else None.

(** A world in which every request is answered and the disk works. *)
Definition example_env : Env :=
  {| SPREADSHEET_ID := "sheet";
     credentials := ApiKey;
     authorize := fun _ => None;
     values_get := fun _ range => Return (example_sheet range);
     Date_now := fun n => 1000 * Z.of_nat n;
     Date_toISOString := fun n => "t" +:+ pretty n;
     fs_error := fun _ => None |}.

(** The same world, except that the performance data cannot be read. *)
Definition quota_env : Env :=
  {| SPREADSHEET_ID := "sheet";
     credentials := ApiKey;
     authorize := fun _ => None;
     values_get := fun _ range =>
       if decide (range = PERF_DATA_RANGE) then Throw "Quota exceeded"
       else Return (example_sheet range);
     Date_now := fun n => 1000 * Z.of_nat n;
     Date_toISOString := fun n => "t" +:+ pretty n;
     fs_error := fun _ => None |}.

(** A world whose spreadsheet has no data at all. *)
Definition empty_env : Env :=
  {| SPREADSHEET_ID := "sheet";
     credentials := ApiKey;
     authorize := fun _ => None;
     values_get := fun _ _ => Return None;
     Date_now := fun n => 1000 * Z.of_nat n;
     Date_toISOString := fun n => "t" +:+ pretty n;
     fs_error := fun _ => None |}.

(** A world whose process was started without [SPREADSHEET_ID]. *)
Definition unconfigured_env : Env :=
  {| SPREADSHEET_ID := "";
     credentials := ApiKey;
     authorize := fun _ => None;
     values_get := fun _ range => Return (example_sheet range);
     Date_now := fun n => 1000 * Z.of_nat n;
     Date_toISOString := fun n => "t" +:+ pretty n;
     fs_error := fun _ => None |}.

(** The stores of a process that has just started. *)
Definition snap_store0 : Snap.Store :=
  Snap.mkStore Snap.SNAPSHOT0 stats0 (Snap.mkDisk None None) 0.

Definition ttl_store0 : Ttl.Store := Ttl.mkStore ∅ ∅ stats0 0.

(** * Properties *)

(** ** Strings *)

Lemma append_cons (a : ascii) (s t : string) :
  String a s +:+ t = String a (s +:+ t).
Proof. reflexivity. Qed.

Lemma startsWith_spec (s p : string) :
  Js.startsWith s p = true ↔ ∃ t, s = p +:+ t.
Proof.
  revert s. induction p as [|b p IH]; intros s; simpl.
  - split; [intros _; by exists s | done].
  - destruct s as [|a s].
    + split; [done | intros [t Ht]; discriminate].
    + destruct (decide (a = b)) as [->|Hab].
      * rewrite IH. split; intros [t Ht]; exists t.
        -- by rewrite append_cons, Ht.
        -- rewrite append_cons in Ht. by injection Ht.
      * split; [done | intros [t Ht]].
        rewrite append_cons in Ht. by injection Ht.
Qed.

Lemma includes_spec (s sub : string) :
  Js.includes s sub = true ↔ Js.occurs_in sub s.
Proof.
  unfold Js.occurs_in. induction s as [|a s IH].
  - cbn [Js.includes]. rewrite orb_false_r, startsWith_spec. split.
    + intros [t Ht]. by exists "", t.
    + intros ([|c pre] & post & H); [by exists post | by rewrite append_cons in H].
  - cbn [Js.includes]. rewrite orb_true_iff, startsWith_spec, IH. split.
    + intros [[t Ht] | (pre & post & H)].
      * by exists "", t.
      * exists (String a pre), post. by rewrite append_cons, H.
    + intros ([|c pre] & post & H).
      * left. by exists post.
      * right. exists pre, post. rewrite append_cons in H. by injection H.
Qed.

Lemma trimStart_empty (s : string) :
  Js.trimStart s = "" ↔ Js.blank s = true.
Proof.
  induction s as [|a s IH]; simpl; [done |].
  destruct (Js.is_white_space a); simpl; [done | split; discriminate].
Qed.

Lemma blank_trimStart (s : string) :
  Js.blank (Js.trimStart s) = Js.blank s.
Proof.
  induction s as [|a s IH]; simpl; [done |].
  destruct (Js.is_white_space a) eqn:Ha; simpl; [done | by rewrite Ha].
Qed.

Lemma blank_rev_app (s1 s2 : string) :
  Js.blank (String.rev_app s1 s2) = Js.blank s1 && Js.blank s2.
Proof.
  revert s2. induction s1 as [|a s1 IH]; intros s2; simpl; [done |].
  rewrite IH. simpl. by destruct (Js.is_white_space a), (Js.blank s1).
Qed.

Lemma rev_app_empty (s1 s2 : string) :
  String.rev_app s1 s2 = "" → s1 = "" ∧ s2 = "".
Proof.
  revert s2. induction s1 as [|a s1 IH]; intros s2; simpl; [done |].
  intros H. by destruct (IH _ H).
Qed.

Lemma blank_app (s1 s2 : string) :
  Js.blank (s1 +:+ s2) = Js.blank s1 && Js.blank s2.
Proof.
  induction s1 as [|a s1 IH]; [done |].
  rewrite append_cons. simpl. by rewrite IH, andb_assoc.
Qed.

(** [trim] leaves the empty string exactly on the strings made of white
    space. *)
Lemma trim_empty (s : string) :
  Js.trim s = "" ↔ Js.blank s = true.
Proof.
  unfold Js.trim, Js.trimEnd, String.rev. split.
  - intros H. apply rev_app_empty in H as [H _].
    apply trimStart_empty in H.
    rewrite blank_rev_app, andb_true_r, blank_trimStart in H. done.
  - intros H. apply trimStart_empty in H. by rewrite H.
Qed.

Lemma length_pos_nonempty (s : string) :
  (0 <? String.length s)%nat = negb (String.eqb s "").
Proof. by destruct s. Qed.

(** ** Lists built by a loop of [push] *)

Lemma foldl_push {A B} (f : A → B) (acc : list B) (l : list A) :
  foldl (fun out x => out ++ [f x]) acc l = acc ++ map f l.
Proof.
  revert acc. induction l as [|x l IH]; intros acc; simpl.
  - by rewrite app_nil_r.
  - by rewrite IH, <- app_assoc.
Qed.

(** ** Key column locator *)

Lemma isSchoolIdHeader_spec (h : cell) :
  isSchoolIdHeader h = true ↔ key_label_matches h.
Proof.
  unfold isSchoolIdHeader, key_label_matches; cbv zeta.
  rewrite !orb_true_iff, andb_true_iff, !String.eqb_eq, !includes_spec.
  tauto.
Qed.

Lemma isSchoolIdHeader_false (h : cell) :
  isSchoolIdHeader h = false ↔ ¬ key_label_matches h.
Proof.
  rewrite <- isSchoolIdHeader_spec. destruct (isSchoolIdHeader h); naive_solver.
Qed.

Lemma findSchoolIdIndex_from_spec (i : nat) (headers : list cell) :
  (findSchoolIdIndex_from i headers = -1
   ∧ ∀ h, h ∈ headers → ¬ key_label_matches h)
  ∨ (∃ (k : nat) (h : cell),
       findSchoolIdIndex_from i headers = Z.of_nat (i + k)
       ∧ headers !! k = Some h
       ∧ key_label_matches h
       ∧ ∀ (j : nat) (h' : cell),
           (j < k)%nat → headers !! j = Some h' → ¬ key_label_matches h').
Proof.
  revert i. induction headers as [|h rest IH]; intros i; simpl.
  - left. split; [done | intros h Hh; by apply elem_of_nil in Hh].
  - destruct (isSchoolIdHeader h) eqn:Hh.
    + right. exists 0%nat, h. rewrite Nat.add_0_r.
      split_and!; [done | done | by apply isSchoolIdHeader_spec | intros; lia].
    + apply isSchoolIdHeader_false in Hh.
      destruct (IH (S i)) as [[Hnone Hall] | (k & h' & Hidx & Hk & Hm & Hlow)].
      * left. split; [done |]. intros x Hx. apply elem_of_cons in Hx as [->|Hx]; auto.
      * right. exists (S k), h'. split_and!; [ | done | done | ].
        -- rewrite Hidx. f_equal. lia.
        -- intros [|j] x Hj Hx; simpl in Hx; [by simplify_eq |].
           apply (Hlow j); [lia | done].
Qed.

(** C7.  The locator returns the lowest index whose label, trimmed and
    lower-cased, equals "school id", equals "schoolid", or contains both
    "school" and "id"; it returns -1 when no label matches.  The three
    header lists of the specification give 1, 0 and -1. *)
Theorem findSchoolIdIndex_lowest_match :
  (∀ headers : list cell,
     (findSchoolIdIndex headers = -1
      ∧ ∀ h, h ∈ headers → ¬ key_label_matches h)
     ∨ (∃ (i : nat) (h : cell),
          findSchoolIdIndex headers = Z.of_nat i
          ∧ headers !! i = Some h
          ∧ key_label_matches h
          ∧ ∀ (j : nat) (h' : cell),
              (j < i)%nat → headers !! j = Some h' → ¬ key_label_matches h'))
  ∧ findSchoolIdIndex [CStr "Name"; CStr "School ID"; CStr "Region"] = 1
  ∧ findSchoolIdIndex [CStr "schoolid"; CStr "name"] = 0
  ∧ findSchoolIdIndex [CStr "id"; CStr "name"] = -1.
Proof.
  split_and!; [ | reflexivity | reflexivity | reflexivity ].
  intros headers. apply (findSchoolIdIndex_from_spec 0 headers).
Qed.

(** ** Three-row header flattening *)

Lemma buildPerfFlatHeaders_map (h1 h2 h3 : list cell) :
  buildPerfFlatHeaders h1 h2 h3
  = map (perf_label h1 h2 h3) (seq 0 (max3 (length h1) (length h2) (length h3))).
Proof. unfold buildPerfFlatHeaders. by rewrite foldl_push. Qed.

(** The flat header is as wide as the widest header row. *)
Lemma buildPerfFlatHeaders_length (h1 h2 h3 : list cell) :
  length (buildPerfFlatHeaders h1 h2 h3) = max3 (length h1) (length h2) (length h3).
Proof. by rewrite buildPerfFlatHeaders_map, length_map, length_seq. Qed.

Lemma buildPerfFlatHeaders_lookup (h1 h2 h3 : list cell) (i : nat) :
  (i < max3 (length h1) (length h2) (length h3))%nat →
  buildPerfFlatHeaders h1 h2 h3 !! i = Some (perf_label h1 h2 h3 i).
Proof.
  intros Hi. rewrite buildPerfFlatHeaders_map, list_lookup_fmap.
  by rewrite lookup_seq_lt.
Qed.

(** The joined label always holds its two separators, so it is never empty
    after trimming. *)
Lemma joined_label_not_blank (a b c : string) :
  Js.blank (a +:+ " | " +:+ b +:+ " | " +:+ c) = false.
Proof.
  rewrite blank_app. change (" | " +:+ b +:+ " | " +:+ c)
    with (String " " (String "|" (" " +:+ b +:+ " | " +:+ c))).
  cbn [Js.blank]. by rewrite andb_false_r.
Qed.

(** C5.  At a position where the three header cells are empty the code
    yields the label "|  |", not the placeholder: the joined label is
    never empty after trimming, so the fallback to [col_<index>] is never
    taken. *)
Theorem buildPerfFlatHeaders_no_placeholder :
  buildPerfFlatHeaders [CStr "A"; CStr ""; CStr "B"]
                       [CStr "x"; CStr ""; CStr "y"]
                       [CNum 2021; CStr ""; CNum 2022]
  = ["A | x | 2021"; "|  |"; "B | y | 2022"]
  ∧ "|  |" ≠ col_ 1
  ∧ ∀ (h1 h2 h3 : list cell) (i : nat),
      perf_label h1 h2 h3 i
      = Js.trim (ToString (Some (nullish_or (h1 !! i) (CStr ""))) +:+ " | "
                 +:+ ToString (Some (nullish_or (h2 !! i) (CStr ""))) +:+ " | "
                 +:+ ToString (Some (nullish_or (h3 !! i) (CStr "")))).
Proof.
  split_and!; [reflexivity | discriminate |].
  intros h1 h2 h3 i. unfold perf_label; cbv zeta.
  rewrite length_pos_nonempty.
  destruct (String.eqb _ "") eqn:E; [| done].
  apply String.eqb_eq, trim_empty in E.
  by rewrite joined_label_not_blank in E.
Qed.

(** ** [Map] *)

Section JsMap_facts.
Context {V : Type}.
Implicit Types (m : JsMap.t V) (k : string) (v : V).

Lemma get_set m k v k' :
  JsMap.get (JsMap.set k v m) k' = if decide (k' = k) then Some v else JsMap.get m k'.
Proof.
  induction m as [|[k0 v0] m IH]; simpl.
  - by destruct (decide (k' = k)).
  - destruct (decide (k = k0)) as [->|Hne]; simpl.
    + by destruct (decide (k' = k0)).
    + destruct (decide (k' = k0)) as [->|Hne'].
      * by rewrite decide_False by done.
      * apply IH.
Qed.

Lemma get_None_keys m k : JsMap.get m k = None ↔ k ∉ JsMap.keys m.
Proof.
  unfold JsMap.keys. induction m as [|[k0 v0] m IH]; simpl.
  - split; [intros _; apply not_elem_of_nil | done].
  - rewrite not_elem_of_cons. destruct (decide (k = k0)) as [->|Hne].
    + split; [done | by intros []].
    + rewrite IH. tauto.
Qed.

Lemma has_keys m k : JsMap.has m k = true ↔ k ∈ JsMap.keys m.
Proof.
  unfold JsMap.has. destruct (JsMap.get m k) eqn:E.
  - split; [intros _ | done].
    destruct (decide (k ∈ JsMap.keys m)) as [|Hn]; [done |].
    apply get_None_keys in Hn. congruence.
  - apply get_None_keys in E. split; [done | intros; contradiction].
Qed.

Lemma keys_set m k v :
  JsMap.keys (JsMap.set k v m)
  = if decide (k ∈ JsMap.keys m) then JsMap.keys m else JsMap.keys m ++ [k].
Proof.
  unfold JsMap.keys. induction m as [|[k0 v0] m IH]; [done |].
  cbn [JsMap.set]. destruct (decide (k = k0)) as [->|Hne]; rewrite !fmap_cons; cbn [fst].
  - destruct (decide (k0 ∈ k0 :: m.*1)) as [|Hn]; [done |].
    destruct Hn. apply list_elem_of_here.
  - rewrite IH.
    destruct (decide (k ∈ m.*1)) as [Hin|Hin], (decide (k ∈ k0 :: m.*1)) as [Hin'|Hin'];
      try done.
    + destruct Hin'. by apply list_elem_of_further.
    + apply elem_of_cons in Hin' as [?|?]; done.
Qed.

Lemma keys_set_NoDup m k v : NoDup (JsMap.keys m) → NoDup (JsMap.keys (JsMap.set k v m)).
Proof.
  intros H. rewrite keys_set. destruct (decide (k ∈ JsMap.keys m)); [done |].
  apply NoDup_app. split_and!; [done | | apply NoDup_singleton].
  intros x Hx Hx'. apply list_elem_of_singleton in Hx'. by subst.
Qed.
End JsMap_facts.

(** ** Keyed index *)

Lemma usable_id_spec (id : option cell) :
  usable_id id = true ↔ id ≠ None ∧ id ≠ Some (CStr "").
Proof.
  destruct id as [[| | |s]|]; simpl.
  - split; [done | naive_solver].
  - split; [done | naive_solver].
  - split; [done | naive_solver].
  - destruct (String.eqb_spec s "") as [->|Hs]; simpl.
    + split; [done | by intros [_ []]].
    + split; [intros _; split; congruence | done].
  - split; [done | by intros [[] _]].
Qed.

Lemma index_step_get (keyName : string) (map : JsMap.t record) (r : record) (k : string) :
  JsMap.get (index_step keyName map r) k
  = if decide (indexed_under keyName k r) then Some r else JsMap.get map k.
Proof.
  unfold index_step, indexed_under.
  destruct (usable_id (r !! keyName)) eqn:E.
  - apply usable_id_spec in E as [E1 E2]. rewrite get_set.
    destruct (decide (k = ToString (r !! keyName))) as [->|Hne].
    + by rewrite decide_True.
    + rewrite decide_False; [done |]. intros (_ & _ & ?). by subst.
  - rewrite decide_False; [done |]. intros (E1 & E2 & _).
    assert (usable_id (r !! keyName) = true) by by apply usable_id_spec.
    congruence.
Qed.

Lemma index_loop_get (keyName : string) (objs : list record) (k : string) :
  JsMap.get (foldl (index_step keyName) JsMap.empty objs) k
  = last (filter (indexed_under keyName k) objs).
Proof.
  induction objs as [|r objs IH] using rev_ind; [done |].
  rewrite foldl_app. simpl. rewrite index_step_get, filter_app, IH.
  rewrite filter_cons, filter_nil. destruct (decide (indexed_under keyName k r)).
  - by rewrite last_snoc.
  - by rewrite app_nil_r.
Qed.

Lemma index_loop_NoDup (keyName : string) (objs : list record) :
  NoDup (JsMap.keys (foldl (index_step keyName) JsMap.empty objs)).
Proof.
  induction objs as [|r objs IH] using rev_ind; [apply NoDup_nil_2 |].
  rewrite foldl_app. simpl. unfold index_step at 1.
  destruct (usable_id _); [by apply keys_set_NoDup | done].
Qed.

Lemma newSet_snoc (xs : list string) (x : string) :
  newSet (xs ++ [x]) = set_add (newSet xs) x.
Proof. unfold newSet. by rewrite foldl_app. Qed.

(** The keys of the index, in insertion order: the stringified key values
    of the usable records, each at its first occurrence. *)
Lemma index_loop_keys (keyName : string) (objs : list record) :
  JsMap.keys (foldl (index_step keyName) JsMap.empty objs)
  = newSet ((fun r : record => ToString (r !! keyName))
              <$> filter (fun r : record => usable_id (r !! keyName) = true) objs).
Proof.
  induction objs as [|r objs IH] using rev_ind; [done |].
  rewrite foldl_app, filter_app, fmap_app. simpl. unfold index_step at 1.
  rewrite filter_cons, filter_nil.
  destruct (usable_id (r !! keyName)) eqn:E.
  - rewrite decide_True by done. rewrite keys_set, IH.
    rewrite list_fmap_singleton, newSet_snoc. done.
  - rewrite decide_False by congruence. by rewrite app_nil_r.
Qed.

Lemma find_index_from (i : nat) (headers : list cell) :
  match findSchoolIdHeader headers with
  | None => findSchoolIdIndex_from i headers = -1
  | Some h =>
      ∃ k : nat, findSchoolIdIndex_from i headers = Z.of_nat (i + k)
                 ∧ headers !! k = Some h ∧ isSchoolIdHeader h = true
  end.
Proof.
  unfold findSchoolIdHeader. revert i.
  induction headers as [|h rest IH]; intros i; simpl; [done |].
  destruct (isSchoolIdHeader h) eqn:E.
  - exists 0%nat. by rewrite Nat.add_0_r.
  - specialize (IH (S i)). destruct (find isSchoolIdHeader rest); [| done].
    destruct IH as (k & Hk & Hl & Hh). exists (S k). split_and!; [| done | done].
    rewrite Hk. f_equal. lia.
Qed.

Lemma findSchoolIdHeader_None (headers : list cell) :
  findSchoolIdHeader headers = None ↔ ∀ h, h ∈ headers → ¬ key_label_matches h.
Proof.
  unfold findSchoolIdHeader. induction headers as [|h rest IH]; simpl.
  - split; [intros _ h Hh; by apply elem_of_nil in Hh | done].
  - destruct (isSchoolIdHeader h) eqn:E.
    + split; [done |]. intros H. apply isSchoolIdHeader_spec in E.
      destruct (H h); [apply list_elem_of_here | done].
    + apply isSchoolIdHeader_false in E. rewrite IH. split.
      * intros H x Hx. apply elem_of_cons in Hx as [->|Hx]; auto.
      * intros H x Hx. apply H. by apply list_elem_of_further.
Qed.

Lemma toKeyedBySchoolId_unfold (objs : list record) (headerRow : list cell) :
  toKeyedBySchoolId objs headerRow
  = match findSchoolIdHeader headerRow with
    | None => JsMap.empty
    | Some key => foldl (index_step (ToString (Some key))) JsMap.empty objs
    end.
Proof.
  unfold toKeyedBySchoolId, findSchoolIdIndex.
  pose proof (find_index_from 0 headerRow) as H.
  destruct (findSchoolIdHeader headerRow) as [h|].
  - destruct H as (k & -> & Hl & _). simpl.
    destruct (Z.ltb_spec (Z.of_nat k) 0); [lia |].
    by rewrite Nat2Z.id, Hl.
  - by rewrite H.
Qed.

(** C6.  When no header matches the key-column predicate the index is
    empty; otherwise looking up [k] gives the last record whose value at
    the key field is neither undefined nor the empty string and
    stringifies to exactly [k].  The keys "7" and "7 " are distinct. *)
Theorem toKeyedBySchoolId_last_write_wins :
  (∀ headerRow : list cell,
     findSchoolIdHeader headerRow = None
     ↔ ∀ h, h ∈ headerRow → ¬ key_label_matches h)
  ∧ (∀ (objs : list record) (headerRow : list cell),
       match findSchoolIdHeader headerRow with
       | None => toKeyedBySchoolId objs headerRow = JsMap.empty
       | Some key =>
           ∀ k : string,
             JsMap.get (toKeyedBySchoolId objs headerRow) k
             = last (filter (indexed_under (ToString (Some key)) k) objs)
       end)
  ∧ JsMap.keys (toKeyedBySchoolId
                  (rowsToObjects [[CStr "7"; CStr "a"]; [CStr "7 "; CStr "b"]]
                                 [CStr "School ID"; CStr "Name"])
                  [CStr "School ID"; CStr "Name"])
    = ["7"; "7 "].
Proof.
  split_and!; [apply findSchoolIdHeader_None | | reflexivity].
  intros objs headerRow. rewrite toKeyedBySchoolId_unfold.
  destruct (findSchoolIdHeader headerRow); [| done].
  intros k. apply index_loop_get.
Qed.

(** ** Join engine *)

Lemma merge_all_map (hp hq : option cell) (pMap qMap : JsMap.t record) (ids : list string) :
  merge_all hp hq pMap qMap ids = merge_row hp hq pMap qMap <$> ids.
Proof. unfold merge_all. by rewrite foldl_push. Qed.

Lemma inner_ids_filter (pMap qMap : JsMap.t record) :
  inner_ids pMap qMap
  = filter (fun id => id ∈ JsMap.keys qMap) (JsMap.keys pMap).
Proof.
  unfold inner_ids. induction (JsMap.keys pMap) as [|id l IH]; [done |].
  simpl. rewrite filter_cons, IH.
  destruct (JsMap.has qMap id) eqn:E.
  - apply has_keys in E. by rewrite decide_True.
  - rewrite decide_False; [done |]. intros H. apply has_keys in H. congruence.
Qed.

Lemma filter_fresh_snoc (acc : list string) (x : string) (xs : list string) :
  x ∉ xs →
  filter (fun y => y ∉ acc ++ [x]) xs = filter (fun y => y ∉ acc) xs.
Proof.
  induction xs as [|y xs IH]; intros Hx; [done |].
  apply not_elem_of_cons in Hx as [Hxy Hx]. rewrite !filter_cons, IH by done.
  destruct (decide (y ∉ acc)) as [Hy|Hy].
  - rewrite decide_True; [done |].
    rewrite elem_of_app, list_elem_of_singleton. by intros [?|?].
  - rewrite decide_False; [done |]. rewrite elem_of_app. tauto.
Qed.

Lemma set_add_loop (acc xs : list string) :
  NoDup xs →
  foldl set_add acc xs = acc ++ filter (fun x => x ∉ acc) xs.
Proof.
  revert acc. induction xs as [|x xs IH]; intros acc Hnd.
  - by rewrite app_nil_r.
  - apply NoDup_cons in Hnd as [Hx Hnd]. simpl. rewrite IH by done.
    unfold set_add. rewrite filter_cons.
    destruct (decide (x ∈ acc)) as [Hin|Hin].
    + by rewrite decide_False by tauto.
    + rewrite decide_True by done. rewrite <- app_assoc. simpl.
      by rewrite filter_fresh_snoc.
Qed.

Lemma filter_notin_nil (xs : list string) :
  filter (fun x => x ∉ []) xs = xs.
Proof.
  induction xs as [|x xs IH]; [done |].
  rewrite filter_cons, IH. rewrite decide_True; [done | apply not_elem_of_nil].
Qed.

Lemma outer_ids_app (pMap qMap : JsMap.t record) :
  NoDup (JsMap.keys pMap) → NoDup (JsMap.keys qMap) →
  outer_ids pMap qMap
  = JsMap.keys pMap ++ filter (fun id => id ∉ JsMap.keys pMap) (JsMap.keys qMap).
Proof.
  intros Hp Hq. unfold outer_ids, newSet. rewrite foldl_app.
  rewrite (set_add_loop [] _ Hp). simpl. rewrite filter_notin_nil.
  by apply set_add_loop.
Qed.

Lemma toKeyedBySchoolId_NoDup (objs : list record) (headerRow : list cell) :
  NoDup (JsMap.keys (toKeyedBySchoolId objs headerRow)).
Proof.
  rewrite toKeyedBySchoolId_unfold. destruct (findSchoolIdHeader headerRow).
  - apply index_loop_NoDup.
  - apply NoDup_nil_2.
Qed.

Lemma detected_header_truthy (headers : list cell) (h : cell) :
  findSchoolIdHeader headers = Some h → truthy h = true.
Proof.
  intros Hfind. pose proof (find_index_from 0 headers) as H.
  rewrite Hfind in H. destruct H as (_ & _ & _ & Hh).
  destruct (truthy h) eqn:E; [done |].
  unfold isSchoolIdHeader, header_label in Hh. rewrite E in Hh.
  vm_compute in Hh. discriminate.
Qed.

Lemma side_value_detected (headers : list cell) (rec : record) :
  side_value (findSchoolIdHeader headers) rec = value_at (findSchoolIdHeader headers) rec.
Proof.
  unfold side_value, value_at.
  destruct (findSchoolIdHeader headers) as [h|] eqn:E; [| done].
  simpl. rewrite (detected_header_truthy _ _ E). simpl.
  by destruct (rec !! _) as [[]|].
Qed.

Lemma spread_lookup (p q : record) (f : string) :
  spread p q !! f = match q !! f with Some v => Some v | None => p !! f end.
Proof.
  unfold spread. rewrite lookup_union. by destruct (q !! f), (p !! f).
Qed.

Lemma merge_row_fill (headersP headersQ : list cell) (pMap qMap : JsMap.t record)
    (id : string) :
  let p := default ∅ (JsMap.get pMap id) in
  let q := default ∅ (JsMap.get qMap id) in
  merge_row (findSchoolIdHeader headersP) (findSchoolIdHeader headersQ) pMap qMap id
  = if truthy_opt (spread p q !! "School ID") then spread p q
    else <["School ID" := school_id_fill (findSchoolIdHeader headersP)
                            (findSchoolIdHeader headersQ) p q id]> (spread p q).
Proof.
  intros p q. unfold merge_row, school_id_fill. fold p q.
  rewrite !side_value_detected.
  destruct (truthy_opt (spread p q !! "School ID")); simpl; [done |].
  destruct (value_at (findSchoolIdHeader headersP) p); [done |].
  by destruct (value_at (findSchoolIdHeader headersQ) q).
Qed.

Lemma merge_row_has_school_id (hp hq : option cell) (pMap qMap : JsMap.t record)
    (id : string) :
  is_Some (merge_row hp hq pMap qMap id !! "School ID").
Proof.
  unfold merge_row.
  destruct (truthy_opt (spread _ _ !! "School ID")) eqn:E; simpl.
  - by destruct (spread _ _ !! "School ID").
  - destruct (side_value hp _); [by rewrite lookup_insert_eq |].
    destruct (side_value hq _); by rewrite lookup_insert_eq.
Qed.

Lemma merge_row_other_field (hp hq : option cell) (pMap qMap : JsMap.t record)
    (id f : string) :
  f ≠ "School ID" →
  merge_row hp hq pMap qMap id !! f
  = spread (default ∅ (JsMap.get pMap id)) (default ∅ (JsMap.get qMap id)) !! f.
Proof.
  intros Hf. unfold merge_row.
  destruct (truthy_opt (spread _ _ !! "School ID")); simpl; [done |].
  destruct (side_value hp _); [by rewrite lookup_insert_ne |].
  destruct (side_value hq _); by rewrite lookup_insert_ne.
Qed.

(** C2.  The inner join produces one record per key of the left index
    that is also a key of the right index, in the left index's insertion
    order; these keys are exactly the common keys, each once, and the
    count is the number of records.  Profile keys 1, 2, 3 and performance
    keys 2, 3, 4 give count 2 with keys 2 and 3. *)
Theorem innerJoin_intersection :
  (∀ profile perf : Dataset,
     let pMap := toKeyedBySchoolId (data profile) (headers profile) in
     let qMap := toKeyedBySchoolId (data perf) (headers perf) in
     let ids := filter (fun id => id ∈ JsMap.keys qMap) (JsMap.keys pMap) in
     joined (innerJoin profile perf)
     = merge_row (findSchoolIdHeader (headers profile))
                 (findSchoolIdHeader (headers perf)) pMap qMap <$> ids
     ∧ count (innerJoin profile perf) = length (joined (innerJoin profile perf))
     ∧ count (innerJoin profile perf) = length ids
     ∧ NoDup ids
     ∧ ∀ id, id ∈ ids ↔ id ∈ JsMap.keys pMap ∧ id ∈ JsMap.keys qMap)
  ∧ count (innerJoin example_profile example_performance) = 2%nat
  ∧ (fun row : record => row !! "School ID")
      <$> joined (innerJoin example_profile example_performance)
    = [Some (CStr "2"); Some (CStr "3")].
Proof.
  split_and!; [| reflexivity | reflexivity].
  intros profile perf pMap qMap ids.
  assert (joined (innerJoin profile perf)
          = merge_row (findSchoolIdHeader (headers profile))
                      (findSchoolIdHeader (headers perf)) pMap qMap <$> ids) as Hj.
  { unfold innerJoin; simpl. by rewrite merge_all_map, inner_ids_filter. }
  split_and!.
  - done.
  - done.
  - unfold innerJoin at 1; simpl. fold pMap qMap.
    by rewrite merge_all_map, inner_ids_filter, length_fmap.
  - apply NoDup_filter, toKeyedBySchoolId_NoDup.
  - intros id. unfold ids. rewrite list_elem_of_filter. tauto.
Qed.

(** C3.  The merged record is the left record overlaid by the right one,
    so the right value wins on a shared field name; when its "School ID"
    is falsy or missing it is filled with the left record's value at the
    left key field, else the right record's value at the right key field,
    else the join key.  Merging Name "A" with Name "B" gives "B". *)
Theorem merge_row_right_wins_then_fill :
  (∀ (headersP headersQ : list cell) (pMap qMap : JsMap.t record) (id : string),
     let hp := findSchoolIdHeader headersP in
     let hq := findSchoolIdHeader headersQ in
     let p := default ∅ (JsMap.get pMap id) in
     let q := default ∅ (JsMap.get qMap id) in
     let merged := spread p q in
     (∀ f : string,
        merged !! f = match q !! f with Some v => Some v | None => p !! f end)
     ∧ merge_row hp hq pMap qMap id
       = if truthy_opt (merged !! "School ID") then merged
         else <["School ID" := school_id_fill hp hq p q id]> merged)
  ∧ merge_row (Some (CStr "School ID")) (Some (CStr "School ID"))
              [("1", <["School ID" := CStr "1"]> (<["Name" := CStr "A"]> ∅))]
              [("1", <["School ID" := CStr "1"]> (<["Name" := CStr "B"]> ∅))]
              "1" !! "Name"
    = Some (CStr "B").
Proof.
  split; [| reflexivity].
  intros headersP headersQ pMap qMap id hp hq p q merged. split.
  - intros f. apply spread_lookup.
  - apply merge_row_fill.
Qed.

Lemma outerJoin_joined (profile perf : Dataset) :
  let pMap := toKeyedBySchoolId (data profile) (headers profile) in
  let qMap := toKeyedBySchoolId (data perf) (headers perf) in
  joined (outerJoin profile perf)
  = merge_row (findSchoolIdHeader (headers profile))
              (findSchoolIdHeader (headers perf)) pMap qMap
    <$> (JsMap.keys pMap ++ filter (fun id => id ∉ JsMap.keys pMap) (JsMap.keys qMap)).
Proof.
  intros pMap qMap. unfold outerJoin; simpl. fold pMap qMap.
  rewrite merge_all_map, outer_ids_app; [done | apply toKeyedBySchoolId_NoDup ..].
Qed.

(** C4.  The outer join produces one record per key of either index, each
    key once: the left keys in their order, then the right keys that the
    left index lacks.  A side that lacks the key contributes the empty
    record, so apart from "School ID" a one-sided record has the fields of
    its one side only; every record carries a "School ID" field.  Profile
    keys 1, 2, 3 and performance keys 2, 3, 4 give count 4, key 1 with
    profile fields only and key 4 with performance fields only. *)
Theorem outerJoin_union :
  (∀ profile perf : Dataset,
     let pMap := toKeyedBySchoolId (data profile) (headers profile) in
     let qMap := toKeyedBySchoolId (data perf) (headers perf) in
     let hp := findSchoolIdHeader (headers profile) in
     let hq := findSchoolIdHeader (headers perf) in
     let ids :=
       JsMap.keys pMap ++ filter (fun id => id ∉ JsMap.keys pMap) (JsMap.keys qMap) in
     joined (outerJoin profile perf) = merge_row hp hq pMap qMap <$> ids
     ∧ count (outerJoin profile perf) = length ids
     ∧ NoDup ids
     ∧ (∀ id, id ∈ ids ↔ id ∈ JsMap.keys pMap ∨ id ∈ JsMap.keys qMap)
     ∧ (∀ id f, id ∉ JsMap.keys qMap → f ≠ "School ID" →
          merge_row hp hq pMap qMap id !! f = default ∅ (JsMap.get pMap id) !! f)
     ∧ (∀ id f, id ∉ JsMap.keys pMap → f ≠ "School ID" →
          merge_row hp hq pMap qMap id !! f = default ∅ (JsMap.get qMap id) !! f)
     ∧ (∀ row, row ∈ joined (outerJoin profile perf) → is_Some (row !! "School ID")))
  ∧ count (outerJoin example_profile example_performance) = 4%nat
  ∧ joined (outerJoin example_profile example_performance) !! 0%nat
    = Some (list_to_map [("School ID", CStr "1"); ("Name", CStr "A")])
  ∧ joined (outerJoin example_profile example_performance) !! 3%nat
    = Some (list_to_map [("School | ID |", CStr "4");
                         ("Results | Score | 2021", CNum 40);
                         ("School ID", CStr "4")]).
Proof.
  split_and!; [| reflexivity | by vm_compute | by vm_compute].
  intros profile perf pMap qMap hp hq ids.
  pose proof (outerJoin_joined profile perf) as Hj. cbv zeta in Hj.
  fold pMap qMap hp hq ids in Hj.
  pose proof (toKeyedBySchoolId_NoDup (data profile) (headers profile)) as Hp.
  pose proof (toKeyedBySchoolId_NoDup (data perf) (headers perf)) as Hq.
  fold pMap in Hp. fold qMap in Hq.
  split_and!.
  - done.
  - unfold outerJoin at 1; simpl. fold pMap qMap hp hq.
    rewrite merge_all_map, length_fmap, outer_ids_app by done. done.
  - apply NoDup_app. split_and!; [done | | by apply NoDup_filter].
    intros x Hx Hx'. apply list_elem_of_filter in Hx' as [Hn _]. done.
  - intros id. unfold ids. rewrite elem_of_app, list_elem_of_filter.
    destruct (decide (id ∈ JsMap.keys pMap)); tauto.
  - intros id f Hid Hf. rewrite merge_row_other_field by done.
    apply get_None_keys in Hid. rewrite Hid. simpl.
    rewrite spread_lookup. by rewrite lookup_empty.
  - intros id f Hid Hf. rewrite merge_row_other_field by done.
    apply get_None_keys in Hid. rewrite Hid. simpl.
    rewrite spread_lookup, lookup_empty. by destruct (_ !! f).
  - intros row Hrow. rewrite Hj in Hrow.
    apply list_elem_of_fmap in Hrow as (id & -> & _).
    apply merge_row_has_school_id.
Qed.

(** ** The [onlyMatched] parameter *)



(** ** Running a computation *)

Lemma mbind_run {S A B} (m : M S A) (k : A → M S B) (st : S) :
  (m ≫= k) st
  = match m st with
    | (Return a, st') => k a st'
    | (Throw msg, st') => (Throw msg, st')
    end.
Proof. reflexivity. Qed.

Lemma try_catch_run {S A} (m : M S A) (h : string → M S A) (st : S) :
  try_catch m h st
  = match m st with
    | (Return a, st') => (Return a, st')
    | (Throw msg, st') => h msg st'
    end.
Proof. reflexivity. Qed.

(** ** Manual refresh *)

Section Refresh.
Variable env : Env.

Lemma snap_getSheetValues_run (range : string) (st : Snap.Store) :
  Snap.getSheetValues env range st
  = (match values_get env (S (Snap.tick st)) range with
     | Return v => Return (default [] v)
     | Throw msg => Throw msg
     end,
     Snap.mkStore (Snap.SNAPSHOT st)
       (set_lastApiCall (Date_toISOString env (Snap.tick st))
          (increment "apiCalls" (Snap.stats st)))
       (Snap.disk st) (S (S (Snap.tick st)))).
Proof.
  unfold Snap.getSheetValues, mbind, M_bind, bind, modify, Snap.interact; simpl.
  by destruct (values_get env _ range).
Qed.

Lemma snap_getSheetsClient_run (st : Snap.Store) :
  ∃ r st',
    Snap.getSheetsClient env st = (r, st')
    ∧ Snap.SNAPSHOT st' = Snap.SNAPSHOT st
    ∧ Snap.disk st' = Snap.disk st
    ∧ (Snap.tick st ≤ Snap.tick st')%nat.
Proof.
  unfold Snap.getSheetsClient.
  destruct (String.eqb _ _); [by eexists _, _ |].
  destruct (credentials env); [| by eexists _, _ ..].
  rewrite mbind_run. unfold Snap.interact.
  destruct (authorize env (Snap.tick st)); eexists _, _; (split; [done |]); simpl; auto.
Qed.

Lemma snap_saveSnapshotToDisk_run (st : Snap.Store) :
  ∃ r st',
    Snap.saveSnapshotToDisk env st = (Return r, st')
    ∧ Snap.SNAPSHOT st' = Snap.SNAPSHOT st
    ∧ Snap.stats st' = Snap.stats st
    ∧ (Snap.tick st ≤ Snap.tick st')%nat.
Proof.
  unfold Snap.saveSnapshotToDisk, Snap.fs_op, Snap.snapshotToSerializable,
    try_catch, mbind, M_bind, bind, get_state, modify, Snap.interact,
    mret, M_ret, ret, throw; simpl.
  destruct (fs_error env (Snap.tick st)); simpl.
  - eexists _, _. split; [reflexivity |]. simpl. auto.
  - destruct (fs_error env (S (Snap.tick st))); simpl.
    + eexists _, _. split; [reflexivity |]. simpl. auto.
    + eexists _, _. split; [reflexivity |]. simpl. auto.
Qed.

Lemma modify_run {S} (f : S → S) (st : S) : modify f st = (Return tt, f st).
Proof. reflexivity. Qed.

Lemma snap_interact_run {A} (f : nat → A) (st : Snap.Store) :
  Snap.interact f st
  = (Return (f (Snap.tick st)),
     Snap.mkStore (Snap.SNAPSHOT st) (Snap.stats st) (Snap.disk st) (S (Snap.tick st))).
Proof. reflexivity. Qed.

Lemma refreshAll_run (reason : option string) (st : Snap.Store) :
  match Snap.refreshAll env reason st with
  | (Throw _, st') =>
      Snap.SNAPSHOT st' = Snap.SNAPSHOT st ∧ Snap.disk st' = Snap.disk st
  | (Return _, st') =>
      ∃ (n1 n2 n3 n4 : nat) (v1 v2 v3 : option (list (list cell))),
        (Snap.tick st ≤ n1 ∧ n1 < n2 ∧ n2 < n3 ∧ n3 < n4 ∧ n4 < Snap.tick st')%nat
        ∧ values_get env n1 PROFILE_RANGE = Return v1
        ∧ values_get env n2 PERF_HEADERS_RANGE = Return v2
        ∧ values_get env n3 PERF_DATA_RANGE = Return v3
        ∧ let profile := refreshed_profile (default [] v1) in
          let performance := refreshed_performance (default [] v2) (default [] v3) in
          Snap.SNAPSHOT st'
          = {| Snap.profile := Some profile;
               Snap.performance := Some performance;
               Snap.joinedMatched := Some (innerJoin profile performance);
               Snap.lastUpdated := Some (Date_toISOString env n4);
               Snap.lastReason := Some (default "manual" reason) |}
  end.
Proof.
  unfold Snap.refreshAll.
  rewrite mbind_run, snap_interact_run. cbv beta iota.
  set (st1 := Snap.mkStore _ _ _ _).
  rewrite mbind_run.
  destruct (snap_getSheetsClient_run st1) as (r & st2 & -> & Hs2 & Hd2 & Ht2).
  destruct r as [[]|msg]; [| done].
  rewrite mbind_run, snap_getSheetValues_run.
  set (st3 := Snap.mkStore _ _ _ _).
  destruct (values_get env (S (Snap.tick st2)) PROFILE_RANGE) as [v1|msg] eqn:E1;
    [| by (cbn; rewrite Hs2, Hd2)].
  rewrite mbind_run, snap_getSheetValues_run.
  set (st4 := Snap.mkStore _ _ _ _).
  destruct (values_get env (S (Snap.tick st3)) PERF_HEADERS_RANGE) as [v2|msg] eqn:E2;
    [| by (cbn; rewrite Hs2, Hd2)].
  rewrite mbind_run, snap_getSheetValues_run.
  set (st5 := Snap.mkStore _ _ _ _).
  destruct (values_get env (S (Snap.tick st4)) PERF_DATA_RANGE) as [v3|msg] eqn:E3;
    [| by (cbn; rewrite Hs2, Hd2)].
  cbv zeta.
  do 3 (rewrite mbind_run, modify_run; cbv beta iota).
  rewrite mbind_run, snap_interact_run; cbv beta iota.
  do 2 (rewrite mbind_run, modify_run; cbv beta iota).
  set (st6 := Snap.with_SNAPSHOT _ _).
  rewrite mbind_run.
  destruct (snap_saveSnapshotToDisk_run st6) as (saveRes & st7 & -> & Hs7 & _ & Ht7).
  rewrite mbind_run, snap_interact_run; cbv beta iota.
  exists (S (Snap.tick st2)), (S (Snap.tick st3)), (S (Snap.tick st4)), (Snap.tick st5),
    v1, v2, v3.
  split_and!; [ | | | | | done | done | done | ].
  - subst st1. simpl in Ht2. lia.
  - subst st3. simpl. lia.
  - subst st4 st3. simpl. lia.
  - subst st5 st4 st3. simpl. lia.
  - simpl. subst st6. simpl in Ht7. lia.
  - simpl. rewrite Hs7. done.
Qed.
End Refresh.

(** C1.  A refresh that throws leaves every field of the snapshot, and the
    snapshot file, as they were; a refresh that returns has received an answer to each of its
    three upstream requests and has replaced the five fields together by
    the datasets built from these answers, their inner join, the time of
    the refresh and the reason given.  When the performance data cannot be
    read, a loaded snapshot is left as it is although three requests have
    been counted. *)
Theorem refreshAll_all_or_nothing :
  (∀ (env : Env) (reason : option string) (st : Snap.Store),
     match Snap.refreshAll env reason st with
     | (Throw _, st') =>
         Snap.SNAPSHOT st' = Snap.SNAPSHOT st ∧ Snap.disk st' = Snap.disk st
     | (Return _, st') =>
         ∃ (n1 n2 n3 n4 : nat) (v1 v2 v3 : option (list (list cell))),
           (Snap.tick st ≤ n1 ∧ n1 < n2 ∧ n2 < n3 ∧ n3 < n4 ∧ n4 < Snap.tick st')%nat
           ∧ values_get env n1 PROFILE_RANGE = Return v1
           ∧ values_get env n2 PERF_HEADERS_RANGE = Return v2
           ∧ values_get env n3 PERF_DATA_RANGE = Return v3
           ∧ let profile := refreshed_profile (default [] v1) in
             let performance := refreshed_performance (default [] v2) (default [] v3) in
             Snap.SNAPSHOT st'
             = {| Snap.profile := Some profile;
                  Snap.performance := Some performance;
                  Snap.joinedMatched := Some (innerJoin profile performance);
                  Snap.lastUpdated := Some (Date_toISOString env n4);
                  Snap.lastReason := Some (default "manual" reason) |}
     end)
  ∧ (let loaded := (Snap.refreshAll example_env (Some "startup") snap_store0).2 in
     let after := Snap.refreshAll quota_env (Some "manual_endpoint") loaded in
     after.1 = Throw "Quota exceeded"
     ∧ Snap.SNAPSHOT after.2 = Snap.SNAPSHOT loaded
     ∧ Snap.disk after.2 = Snap.disk loaded
     ∧ Snap.lastReason (Snap.SNAPSHOT after.2) = Some "startup"
     ∧ apiCalls (Snap.stats loaded) = 3%nat
     ∧ apiCalls (Snap.stats after.2) = 6%nat).
Proof.
  split; [apply refreshAll_run |].
  by vm_compute.
Qed.

(** ** Snapshot file *)




(** On a disk that works the save and the load that follows both
    succeed. *)
Lemma save_then_load_succeeds (env : Env) (st : Snap.Store) (cleared : Snap.Snapshot) :
  (∀ n, fs_error env n = None) →
  ∃ st1 st2,
    Snap.saveSnapshotToDisk env st = (Return Snap.DiskOk, st1)
    ∧ Snap.loadSnapshotFromDisk env (Snap.with_SNAPSHOT (fun _ => cleared) st1)
      = (Return Snap.DiskOk, st2).
Proof.
  intros Hfs.
  unfold Snap.saveSnapshotToDisk, Snap.loadSnapshotFromDisk, Snap.fs_op,
    Snap.snapshotToSerializable, try_catch, mbind, M_bind, bind, get_state,
    modify, Snap.interact, mret, M_ret, ret, throw; simpl.
  rewrite !Hfs; simpl. eexists _, _. split; [reflexivity |]. simpl.
  rewrite Hfs. simpl. reflexivity.
Qed.




(** ** TTL cache *)

Section Cache.
Variable env : Env.

(** A read that finds a live entry is a hit: it returns the entry and
    counts one request and one hit, nothing else. *)
Lemma ttl_getPerformanceFull_hit (st : Ttl.Store) (d : Dataset) (t : Z) :
  Ttl.cache_datasets st !! "performance_full" = Some (d, t) →
  Ttl.live (Date_now env (Ttl.tick st)) (d, t) = true →
  Ttl.getPerformanceFull env st
  = (Return d,
     Ttl.mkStore (Ttl.cache_datasets st) (Ttl.cache_joins st)
       (increment "cacheHits" (increment "totalRequests" (Ttl.stats st)))
       (S (Ttl.tick st))).
Proof.
  intros Hentry Hlive.
  unfold Ttl.getPerformanceFull, Ttl.cache_get_dataset, Ttl.count_request,
    Ttl.count_hit, mbind, M_bind, bind, get_state, modify, Ttl.interact,
    mret, M_ret, ret; simpl.
  by rewrite Hentry, Hlive.
Qed.

(** A read of the performance table that returns leaves what it returned
    in the cache. *)
Lemma ttl_getPerformanceFull_stores (st st1 : Ttl.Store) (d : Dataset) :
  Ttl.getPerformanceFull env st = (Return d, st1) →
  ∃ t, Ttl.cache_datasets st1 !! "performance_full" = Some (d, t).
Proof.
  unfold Ttl.getPerformanceFull, Ttl.cache_get_dataset, Ttl.cache_set_dataset,
    Ttl.getSheetsClient, Ttl.getSheetValues, Ttl.count_request, Ttl.count_miss,
    Ttl.count_hit, mbind, M_bind, bind, get_state, modify, Ttl.interact,
    mret, M_ret, ret, throw; simpl.
  destruct (Ttl.cache_datasets st !! "performance_full") as [[d0 t0]|] eqn:Hentry; simpl.
  - destruct (Ttl.live _ _); simpl.
    + intros [= <- <-]. by exists t0.
    + destruct (String.eqb _ _); simpl; [intros [=] |].
      destruct (credentials env); simpl; [destruct (authorize env _); simpl | | intros [=]];
        try (intros [=]; fail);
        (destruct (values_get env _ PERF_HEADERS_RANGE); simpl; [| intros [=]]);
        (destruct (values_get env _ PERF_DATA_RANGE); simpl; [| intros [=]]);
        intros [= <- <-]; simpl; eexists; apply lookup_insert_eq.
  - destruct (String.eqb _ _); simpl; [intros [=] |].
    destruct (credentials env); simpl; [destruct (authorize env _); simpl | | intros [=]];
      try (intros [=]; fail);
      (destruct (values_get env _ PERF_HEADERS_RANGE); simpl; [| intros [=]]);
      (destruct (values_get env _ PERF_DATA_RANGE); simpl; [| intros [=]]);
      intros [= <- <-]; simpl; eexists; apply lookup_insert_eq.
Qed.

(** Two consecutive reads of the performance table: when the entry is
    still live at the second read, it returns what the first returned
    and counts a hit, not a miss. *)
Lemma ttl_getPerformanceFull_twice (st st1 : Ttl.Store) (d : Dataset) :
  Ttl.getPerformanceFull env st = (Return d, st1) →
  (∀ t, Ttl.cache_datasets st1 !! "performance_full" = Some (d, t) →
        Ttl.live (Date_now env (Ttl.tick st1)) (d, t) = true) →
  ∃ st2,
    Ttl.getPerformanceFull env st1 = (Return d, st2)
    ∧ cacheHits (Ttl.stats st2) = S (cacheHits (Ttl.stats st1))
    ∧ cacheMisses (Ttl.stats st2) = cacheMisses (Ttl.stats st1)
    ∧ apiCalls (Ttl.stats st2) = apiCalls (Ttl.stats st1).
Proof.
  intros Hfirst Hlive.
  destruct (ttl_getPerformanceFull_stores _ _ _ Hfirst) as [t Hentry].
  eexists. split; [apply (ttl_getPerformanceFull_hit _ _ _ Hentry (Hlive _ Hentry)) |].
  done.
Qed.
End Cache.

(** C8.  On a spreadsheet without data the profile accessor returns the
    empty dataset before it reaches [cache.set]: nothing is stored, and a
    second read within the TTL window is a second miss, with no hit.  The
    performance accessor stores its result in the same world, and its
    second read is a hit. *)
Theorem getProfile_empty_sheet_not_cached :
  (let first := Ttl.getProfile empty_env ttl_store0 in
   let second := Ttl.getProfile empty_env first.2 in
   first.1 = Return (mkDataset [] [] [])
   ∧ second.1 = first.1
   ∧ Ttl.cache_datasets first.2 = ∅
   ∧ Date_now empty_env (Ttl.tick first.2) < Date_now empty_env 0 + Ttl.stdTTL * 1000
   ∧ cacheMisses (Ttl.stats first.2) = 1%nat
   ∧ cacheHits (Ttl.stats first.2) = 0%nat
   ∧ cacheMisses (Ttl.stats second.2) = 2%nat
   ∧ cacheHits (Ttl.stats second.2) = 0%nat)
  ∧ (let first := Ttl.getPerformanceFull empty_env ttl_store0 in
     let second := Ttl.getPerformanceFull empty_env first.2 in
     second.1 = first.1
     ∧ cacheMisses (Ttl.stats second.2) = 1%nat
     ∧ cacheHits (Ttl.stats second.2) = 1%nat).
Proof. by vm_compute. Qed.


(** * Further properties of the code *)

(** ** Row materializer *)

(** The loop of [rowsToObjects] over any list of positions: the value at a
    key is that of the last position carrying the key. *)
Lemma row_loop_lookup (headerRow r : list cell) (positions : list nat)
    (obj : record) (k : string) :
  foldl (fun obj i => <[column_key headerRow i := nullish_or (r !! i) (CStr "")]> obj)
        obj positions !! k
  = match last (filter (fun i => column_key headerRow i = k) positions) with
    | Some i => Some (nullish_or (r !! i) (CStr ""))
    | None => obj !! k
    end.
Proof.
  induction positions as [|i positions IH] using rev_ind; [done |].
  rewrite foldl_app, filter_app, filter_cons, filter_nil. simpl.
  destruct (decide (column_key headerRow i = k)) as [<-|Hne].
  - by rewrite last_snoc, lookup_insert_eq.
  - by rewrite app_nil_r, lookup_insert_ne, IH.
Qed.

Lemma nullish_or_not_null (v : option cell) : nullish_or v (CStr "") ≠ CNull.
Proof. by destruct v as [[]|]. Qed.


(** X2.  [rowsToObjects] gives one record per row, in order; no member of
    a record is null, and every member's name is the key of a header
    position. *)
Theorem rowsToObjects_records (rows : list (list cell)) (headerRow : list cell) :
  length (rowsToObjects rows headerRow) = length rows
  ∧ (∀ (n : nat), rowsToObjects rows headerRow !! n
                  = rowToObject headerRow <$> rows !! n)
  ∧ (∀ (rec : record) (k : string) (v : cell),
       rec ∈ rowsToObjects rows headerRow → rec !! k = Some v →
       v ≠ CNull
       ∧ ∃ i : nat, (i < length headerRow)%nat ∧ k = column_key headerRow i).
Proof.
  unfold rowsToObjects. split_and!.
  - apply length_map.
  - intros n. apply list_lookup_fmap.
  - intros rec k v Hrec Hk.
    apply list_elem_of_fmap in Hrec as (r & -> & _).
    unfold rowToObject in Hk. rewrite row_loop_lookup, lookup_empty in Hk.
    destruct (last _) as [i|] eqn:Hlast; [| done].
    injection Hk as <-. split; [apply nullish_or_not_null |].
    apply last_Some in Hlast as [l' Hl'].
    assert (i ∈ filter (fun i => column_key headerRow i = k) (seq 0 (length headerRow)))
      as Hin by (rewrite Hl'; apply elem_of_app; right; apply list_elem_of_here).
    apply list_elem_of_filter in Hin as [Hkey Hseq].
    apply elem_of_seq in Hseq. exists i. split; [lia | done].
Qed.

(** ** Flat header *)

Lemma perf_label_not_empty (h1 h2 h3 : list cell) (i : nat) :
  perf_label h1 h2 h3 i ≠ "".
Proof.
  unfold perf_label; cbv zeta. rewrite length_pos_nonempty.
  destruct (String.eqb _ "") eqn:E; simpl.
  - apply String.eqb_eq, trim_empty in E. by rewrite joined_label_not_blank in E.
  - by apply String.eqb_neq in E.
Qed.

(** X3.  The flat header built from three header rows has one label per
    column of the widest row, the label of column [i] being the one joined
    from the three cells at [i]; no label is empty. *)
Theorem buildPerfFlatHeaders_labels (h1 h2 h3 : list cell) :
  length (buildPerfFlatHeaders h1 h2 h3)
  = Nat.max (Nat.max (length h1) (length h2)) (length h3)
  ∧ (∀ i : nat,
       buildPerfFlatHeaders h1 h2 h3 !! i
       = if decide (i < Nat.max (Nat.max (length h1) (length h2)) (length h3))%nat
         then Some (perf_label h1 h2 h3 i) else None)
  ∧ (∀ label : string, label ∈ buildPerfFlatHeaders h1 h2 h3 → label ≠ "").
Proof.
  split_and!.
  - apply buildPerfFlatHeaders_length.
  - intros i. case_decide as Hi.
    + by apply buildPerfFlatHeaders_lookup.
    + apply lookup_ge_None. rewrite buildPerfFlatHeaders_length. unfold max3. lia.
  - intros label Hl. rewrite buildPerfFlatHeaders_map in Hl.
    apply list_elem_of_fmap in Hl as (i & -> & _). apply perf_label_not_empty.
Qed.

(** ** Key column *)

(** X4.  The two ways in which the code finds the key column agree:
    [headers.find(isSchoolIdHeader)] is the header at
    [findSchoolIdIndex(headers)], and is undefined exactly when the index
    is -1; the index is below the number of headers. *)
Theorem findSchoolIdHeader_at_index (headers : list cell) :
  -1 ≤ findSchoolIdIndex headers < Z.of_nat (length headers)
  ∧ findSchoolIdHeader headers
    = (if findSchoolIdIndex headers <? 0 then None
       else headers !! Z.to_nat (findSchoolIdIndex headers))
  ∧ (findSchoolIdHeader headers = None ↔ findSchoolIdIndex headers = -1).
Proof.
  unfold findSchoolIdIndex. pose proof (find_index_from 0 headers) as H.
  destruct (findSchoolIdHeader headers) as [h|].
  - destruct H as (k & -> & Hk & _). simpl.
    pose proof (lookup_lt_Some _ _ _ Hk).
    destruct (Z.ltb_spec (Z.of_nat k) 0); [lia |].
    rewrite Nat2Z.id. split_and!; [lia | lia | done | split; [done | lia]].
  - rewrite H. simpl. split_and!; [lia | lia | done | done].
Qed.

(** ** Keyed index, continued *)

(** X5.  The keys of the index, in the order of their insertion, are the
    stringified key values of the usable records, each at its first
    occurrence; no key is repeated. *)
Theorem toKeyedBySchoolId_keys (objs : list record) (headerRow : list cell) :
  NoDup (JsMap.keys (toKeyedBySchoolId objs headerRow))
  ∧ JsMap.keys (toKeyedBySchoolId objs headerRow)
    = match findSchoolIdHeader headerRow with
      | None => []
      | Some key =>
          newSet ((fun r : record => ToString (r !! ToString (Some key)))
                    <$> filter (fun r : record =>
                                  usable_id (r !! ToString (Some key)) = true) objs)
      end.
Proof.
  split; [apply toKeyedBySchoolId_NoDup |].
  rewrite toKeyedBySchoolId_unfold.
  destruct (findSchoolIdHeader headerRow); [apply index_loop_keys | done].
Qed.

(** X6.  What the index holds comes from the data: a record found under
    [k] is one of the records, its value at the key field is usable and
    stringifies to [k]; and [k] is a key of the index exactly when some
    record has such a value. *)
Theorem toKeyedBySchoolId_sound_complete (objs : list record) (headerRow : list cell) :
  (∀ (k : string) (r : record),
     JsMap.get (toKeyedBySchoolId objs headerRow) k = Some r →
     r ∈ objs
     ∧ ∃ key, findSchoolIdHeader headerRow = Some key
              ∧ indexed_under (ToString (Some key)) k r)
  ∧ (∀ k : string,
       JsMap.has (toKeyedBySchoolId objs headerRow) k = true
       ↔ ∃ key r, findSchoolIdHeader headerRow = Some key
                  ∧ r ∈ objs ∧ indexed_under (ToString (Some key)) k r).
Proof.
  rewrite toKeyedBySchoolId_unfold.
  destruct (findSchoolIdHeader headerRow) as [key|].
  - split.
    + intros k r Hget. rewrite index_loop_get in Hget.
      apply last_Some in Hget as [l' Hl'].
      assert (r ∈ filter (indexed_under (ToString (Some key)) k) objs) as Hin
        by (rewrite Hl'; apply elem_of_app; right; apply list_elem_of_here).
      apply list_elem_of_filter in Hin as [Hr Hin]. split; [done | by exists key].
    + intros k. unfold JsMap.has. rewrite index_loop_get. split.
      * destruct (last _) as [r|] eqn:Hlast; [intros _ | done].
        apply last_Some in Hlast as [l' Hl'].
        assert (r ∈ filter (indexed_under (ToString (Some key)) k) objs) as Hin
          by (rewrite Hl'; apply elem_of_app; right; apply list_elem_of_here).
        apply list_elem_of_filter in Hin as [Hr Hin]. by exists key, r.
      * intros (key' & r & [= <-] & Hin & Hr).
        destruct (last _) eqn:Hlast; [done |].
        apply last_None in Hlast.
        assert (r ∈ filter (indexed_under (ToString (Some key)) k) objs) as Hf
          by by apply list_elem_of_filter.
        rewrite Hlast in Hf. by apply elem_of_nil in Hf.
  - split.
    + intros k r Hget. done.
    + intros k. split; [done | by intros (? & ? & ? & _)].
Qed.

(** ** Join engine, continued *)

Lemma toKeyedBySchoolId_no_key (objs : list record) (headerRow : list cell) :
  findSchoolIdHeader headerRow = None → toKeyedBySchoolId objs headerRow = [].
Proof. intros H. by rewrite toKeyedBySchoolId_unfold, H. Qed.

Lemma filter_nothing {A} (P : A → Prop) `{∀ x, Decision (P x)} (l : list A) :
  (∀ x, x ∈ l → ¬ P x) → filter P l = [].
Proof.
  induction l as [|x l IH]; intros Hl; [done |].
  rewrite filter_cons, decide_False by (apply Hl; apply list_elem_of_here).
  apply IH. intros y Hy. apply Hl. by apply list_elem_of_further.
Qed.

(** X7.  When the header of either table has no key column the inner join
    is empty: count 0 and no record, whatever the rows hold. *)
Theorem innerJoin_without_key_column (profile perf : Dataset) :
  findSchoolIdHeader (headers profile) = None
  ∨ findSchoolIdHeader (headers perf) = None →
  innerJoin profile perf = {| count := 0; joined := [] |}.
Proof.
  intros H. unfold innerJoin. rewrite merge_all_map, inner_ids_filter.
  assert (filter (fun id => id ∈ JsMap.keys (toKeyedBySchoolId (data perf) (headers perf)))
                 (JsMap.keys (toKeyedBySchoolId (data profile) (headers profile))) = [])
    as ->; [| done].
  destruct H as [H|H]; rewrite (toKeyedBySchoolId_no_key _ _ H); [done |].
  apply filter_nothing. intros x _ Hx. by apply elem_of_nil in Hx.
Qed.

Lemma innerJoin_without_key_column_witness :
  findSchoolIdHeader (headers (mkDataset [CStr "Name"] [[CStr "A"]]
                                 (rowsToObjects [[CStr "A"]] [CStr "Name"]))) = None
  ∧ innerJoin (mkDataset [CStr "Name"] [[CStr "A"]]
                 (rowsToObjects [[CStr "A"]] [CStr "Name"]))
              example_performance
    = {| count := 0; joined := [] |}.
Proof.
  split; [reflexivity |].
  apply innerJoin_without_key_column. left. reflexivity.
Defined.

Lemma common_keys_length (ps qs : list string) :
  NoDup ps → NoDup qs →
  length (filter (fun id => id ∈ qs) ps) = length (filter (fun id => id ∈ ps) qs).
Proof.
  intros Hp Hq. apply Permutation_length, NoDup_Permutation.
  - by apply NoDup_filter.
  - by apply NoDup_filter.
  - intros x. rewrite !list_elem_of_filter. tauto.
Qed.

(** X8.  The two joins of the same tables fit together: every record of
    the inner join is a record of the outer join, and the two counts add
    up to the sizes of the two indices, so that the outer join has as many
    records as the two indices have keys, the common ones counted once. *)
Theorem innerJoin_within_outerJoin (profile perf : Dataset) :
  (∀ row : record,
     row ∈ joined (innerJoin profile perf) → row ∈ joined (outerJoin profile perf))
  ∧ (count (outerJoin profile perf) + count (innerJoin profile perf)
     = length (JsMap.keys (toKeyedBySchoolId (data profile) (headers profile)))
       + length (JsMap.keys (toKeyedBySchoolId (data perf) (headers perf))))%nat
  ∧ (count (innerJoin profile perf) ≤ count (outerJoin profile perf))%nat.
Proof.
  pose proof (toKeyedBySchoolId_NoDup (data profile) (headers profile)) as Hp.
  pose proof (toKeyedBySchoolId_NoDup (data perf) (headers perf)) as Hq.
  pose proof (outerJoin_joined profile perf) as Hout. cbv zeta in Hout.
  assert (count (outerJoin profile perf) = length (joined (outerJoin profile perf)))
    as Hco by done.
  assert (count (innerJoin profile perf) = length (joined (innerJoin profile perf)))
    as Hci by done.
  assert (joined (innerJoin profile perf)
          = merge_row (findSchoolIdHeader (headers profile))
              (findSchoolIdHeader (headers perf))
              (toKeyedBySchoolId (data profile) (headers profile))
              (toKeyedBySchoolId (data perf) (headers perf))
            <$> filter (fun id => id ∈ JsMap.keys (toKeyedBySchoolId (data perf) (headers perf)))
                       (JsMap.keys (toKeyedBySchoolId (data profile) (headers profile))))
    as Hin by (unfold innerJoin; simpl; by rewrite merge_all_map, inner_ids_filter).
  set (ps := JsMap.keys (toKeyedBySchoolId (data profile) (headers profile))) in *.
  set (qs := JsMap.keys (toKeyedBySchoolId (data perf) (headers perf))) in *.
  assert (length (joined (outerJoin profile perf)) + length (joined (innerJoin profile perf))
          = length ps + length qs)%nat as Hsum.
  { rewrite Hout, Hin, !length_fmap, length_app, common_keys_length by done.
    pose proof (filter_app_complement (fun id => id ∈ ps) qs) as Hperm.
    apply Permutation_length in Hperm. rewrite length_app in Hperm. lia. }
  split_and!.
  - intros row. rewrite Hin, Hout. intros Hrow.
    apply list_elem_of_fmap in Hrow as (id & -> & Hid).
    apply list_elem_of_fmap. exists id. split; [done |].
    apply list_elem_of_filter in Hid as [_ Hid]. apply elem_of_app. by left.
  - by rewrite Hco, Hci.
  - rewrite Hco, Hci, Hout, Hin, !length_fmap, length_app.
    pose proof (length_filter (fun id => id ∈ qs) ps). lia.
Qed.

(** ** Key-column subset *)

Lemma omap_total_length {A B} (f : A → option B) (l : list A) :
  (∀ x, x ∈ l → is_Some (f x)) → length (omap f l) = length l.
Proof.
  induction l as [|x l IH]; intros Hl; [done |]. simpl.
  destruct (Hl x) as [y Hy]; [apply list_elem_of_here |]. rewrite Hy. simpl.
  f_equal. apply IH. intros z Hz. apply Hl. by apply list_elem_of_further.
Qed.

Lemma key_range_bound (width i : nat) :
  i ∈ key_range width → (27 ≤ i ∧ i < width ∧ i ≤ 46)%nat.
Proof.
  unfold key_range. change (Z.to_nat AB_IDX) with 27%nat.
  change (Z.to_nat (AU_IDX + 1)) with 47%nat. cbv zeta.
  intros Hi. apply elem_of_seq in Hi. lia.
Qed.

(** X9.  The key-column subset is a table again: it keeps one row per row,
    every row is as long as the new header, whose labels are labels of
    the full header, the key column first when there is one; it has at
    most 21 columns, and none but the key column when the full header
    stops before column AB. *)
Theorem filterToKeyCols_table (rows : list (list cell)) (headers : list cell) :
  let out := filterToKeyCols rows headers in
  length out.2 = length rows
  ∧ (∀ row, row ∈ out.2 → length row = length out.1)
  ∧ (length out.1 ≤ 21)%nat
  ∧ (∀ h, h ∈ out.1 → h ∈ headers)
  ∧ match findSchoolIdHeader headers with
    | Some key => head out.1 = Some key
    | None => True
    end
  ∧ ((length headers ≤ 27)%nat →
     out.1 = match findSchoolIdHeader headers with Some key => [key] | None => [] end).
Proof.
  unfold filterToKeyCols; cbv zeta. cbn [fst snd].
  pose proof (findSchoolIdHeader_at_index headers) as (Hb & Hfind & _).
  set (idx := findSchoolIdIndex headers) in *.
  set (idxs := (if 0 <=? idx then [Z.to_nat idx] else []) ++ key_range (length headers)).
  assert (∀ i, i ∈ idxs → (i < length headers)%nat) as Hidxs.
  { intros i Hi. apply elem_of_app in Hi as [Hi|Hi].
    - destruct (Z.leb_spec 0 idx); [| by apply elem_of_nil in Hi].
      apply list_elem_of_singleton in Hi. lia.
    - apply key_range_bound in Hi. lia. }
  assert (length (omap (fun i => headers !! i) idxs) = length idxs) as Hlen.
  { apply omap_total_length. intros i Hi. apply lookup_lt_is_Some. by apply Hidxs. }
  split_and!.
  - apply length_map.
  - intros row Hrow. apply list_elem_of_fmap in Hrow as (r & -> & _).
    by rewrite length_map, Hlen.
  - rewrite Hlen. unfold idxs. rewrite length_app.
    assert (length (key_range (length headers)) ≤ 20)%nat.
    { unfold key_range. change (Z.to_nat AB_IDX) with 27%nat.
      change (Z.to_nat (AU_IDX + 1)) with 47%nat. cbv zeta. rewrite length_seq. lia. }
    destruct (0 <=? idx); simpl; lia.
  - intros h Hh. apply list_elem_of_omap in Hh as (i & _ & Hi).
    by apply list_elem_of_lookup_2 in Hi.
  - rewrite Hfind. destruct (Z.ltb_spec idx 0) as [Hneg|Hpos]; [done |].
    destruct (headers !! Z.to_nat idx) as [key|] eqn:Hkey; [| done].
    unfold idxs. destruct (Z.leb_spec 0 idx); [| lia]. simpl. by rewrite Hkey.
  - intros Hshort. rewrite Hfind.
    assert (key_range (length headers) = []) as Hnone.
    { unfold key_range. change (Z.to_nat AB_IDX) with 27%nat.
      change (Z.to_nat (AU_IDX + 1)) with 47%nat. cbv zeta.
      replace (Nat.min 47 (length headers) - 27)%nat with 0%nat by lia. done. }
    unfold idxs. rewrite Hnone, app_nil_r.
    destruct (Z.ltb_spec idx 0), (Z.leb_spec 0 idx); try lia; [done |].
    simpl. destruct (headers !! Z.to_nat idx) eqn:Hkey; [done |].
    apply lookup_ge_None in Hkey. lia.
Qed.

(** ** Column letters *)






(** ** Rules for specifications *)

Section Rules.
Context {S : Type}.

Lemma on_exit_ret {A} (P Q : S → Prop) (a : A) :
  (∀ st, P st → Q st) → on_exit P (mret a : M S A) Q.
Proof. intros H st HP. by apply H. Qed.

Lemma on_exit_throw {A} (P Q : S → Prop) (msg : string) :
  (∀ st, P st → Q st) → on_exit P (throw msg : M S A) Q.
Proof. intros H st HP. by apply H. Qed.

Lemma on_exit_modify (P Q : S → Prop) (f : S → S) :
  (∀ st, P st → Q (f st)) → on_exit P (modify f) Q.
Proof. intros H st HP. by apply H. Qed.

Lemma on_exit_get_state (P Q : S → Prop) :
  (∀ st, P st → Q st) → on_exit P (get_state : M S S) Q.
Proof. intros H st HP. by apply H. Qed.

(** Sequencing, when the first part may throw: what holds after it must
    do for the whole. *)
Lemma on_exit_bind {A B} (P R Q : S → Prop) (m : M S A) (k : A → M S B) :
  on_exit P m R → (∀ st, R st → Q st) → (∀ a, on_exit R (k a) Q) →
  on_exit P (m ≫= k) Q.
Proof.
  intros Hm HRQ Hk st HP. rewrite mbind_run. specialize (Hm st HP).
  destruct (m st) as [[a|msg] st1]; simpl in *; [by apply Hk | by apply HRQ].
Qed.

(** Sequencing after a part that never throws. *)
Lemma on_exit_bind_total {A B} (P R Q : S → Prop) (m : M S A) (k : A → M S B) :
  never_throws m → on_exit P m R → (∀ a, on_exit R (k a) Q) →
  on_exit P (m ≫= k) Q.
Proof.
  intros Ht Hm Hk st HP. rewrite mbind_run. specialize (Hm st HP).
  destruct (Ht st) as [a0 Ha0].
  destruct (m st) as [[a|msg] st1]; simpl in *; [by apply Hk | done].
Qed.

Lemma on_exit_try_catch {A} (P R Q : S → Prop) (m : M S A) (h : string → M S A) :
  on_exit P m R → (∀ st, R st → Q st) → (∀ msg, on_exit R (h msg) Q) →
  on_exit P (try_catch m h) Q.
Proof.
  intros Hm HRQ Hh st HP. rewrite try_catch_run. specialize (Hm st HP).
  destruct (m st) as [[a|msg] st1]; simpl in *; [by apply HRQ | by apply Hh].
Qed.

Lemma never_throws_modify (f : S → S) : never_throws (modify f).
Proof. intros st. by exists tt. Qed.

Lemma never_throws_ret {A} (a : A) : never_throws (mret a : M S A).
Proof. intros st. by exists a. Qed.

Lemma never_throws_bind {A B} (m : M S A) (k : A → M S B) :
  never_throws m → (∀ a, never_throws (k a)) → never_throws (m ≫= k).
Proof.
  intros Hm Hk st. rewrite mbind_run. destruct (Hm st) as [a Ha].
  destruct (m st) as [[a'|msg] st1]; simpl in *; [apply Hk | done].
Qed.

Lemma never_throws_try_catch {A} (m : M S A) (h : string → M S A) :
  (∀ msg, never_throws (h msg)) → never_throws (try_catch m h).
Proof.
  intros Hh st. rewrite try_catch_run.
  destruct (m st) as [[a|msg] st1]; [by exists a | apply Hh].
Qed.

Lemma on_return_ret {A} (P : S → Prop) (Q : A → S → Prop) (a : A) :
  (∀ st, P st → Q a st) → on_return P (mret a : M S A) Q.
Proof. intros H st a' st' HP [= <- <-]. by apply H. Qed.

Lemma on_return_throw {A} (P : S → Prop) (Q : A → S → Prop) (msg : string) :
  on_return P (throw msg : M S A) Q.
Proof. by intros st a' st' HP [=]. Qed.

Lemma on_return_modify (P : S → Prop) (Q : unit → S → Prop) (f : S → S) :
  (∀ st, P st → Q tt (f st)) → on_return P (modify f) Q.
Proof. intros H st a' st' HP [= <- <-]. by apply H. Qed.

Lemma on_return_get_state (P : S → Prop) (Q : S → S → Prop) :
  (∀ st, P st → Q st st) → on_return P (get_state : M S S) Q.
Proof. intros H st a' st' HP [= <- <-]. by apply H. Qed.

Lemma on_return_bind {A B} (P : S → Prop) (R : A → S → Prop) (Q : B → S → Prop)
    (m : M S A) (k : A → M S B) :
  on_return P m R → (∀ a, on_return (R a) (k a) Q) → on_return P (m ≫= k) Q.
Proof.
  intros Hm Hk st b st' HP. rewrite mbind_run.
  destruct (m st) as [[a|msg] st1] eqn:E; [| done].
  intros Hrun. apply (Hk a st1 b st'); [| done]. by apply (Hm st a st1).
Qed.
End Rules.

(** ** Counters of the TTL-cache server *)

Lemma pending_request (s : Stats) :
  pending (increment "totalRequests" s) = pending s + 1.
Proof.
  destruct s as [t h m a e l].
  change (Z.of_nat (S t) - Z.of_nat h - Z.of_nat m
          = Z.of_nat t - Z.of_nat h - Z.of_nat m + 1). lia.
Qed.

Lemma pending_hit (s : Stats) : pending (increment "cacheHits" s) = pending s - 1.
Proof.
  destruct s as [t h m a e l].
  change (Z.of_nat t - Z.of_nat (S h) - Z.of_nat m
          = Z.of_nat t - Z.of_nat h - Z.of_nat m - 1). lia.
Qed.

Lemma pending_miss (s : Stats) : pending (increment "cacheMisses" s) = pending s - 1.
Proof.
  destruct s as [t h m a e l].
  change (Z.of_nat t - Z.of_nat h - Z.of_nat (S m)
          = Z.of_nat t - Z.of_nat h - Z.of_nat m - 1). lia.
Qed.

Lemma pending_apiCalls (s : Stats) : pending (increment "apiCalls" s) = pending s.
Proof. done. Qed.

Lemma pending_errors (s : Stats) : pending (increment "errors" s) = pending s.
Proof. done. Qed.

Section TtlCounters.
Variable env : Env.

Lemma ttl_interact_settled {A} (f : nat → A) : ttl_settled (Ttl.interact f).
Proof. by intros k st Hk. Qed.

Lemma ttl_interact_total {A} (f : nat → A) : never_throws (Ttl.interact f).
Proof. intros st. by eexists. Qed.

Lemma ttl_cache_get_dataset_settled (key : string) :
  ttl_settled (Ttl.cache_get_dataset env key).
Proof.
  intros k st Hk. unfold Ttl.cache_get_dataset, mbind, M_bind, bind, get_state,
    Ttl.interact, modify, mret, M_ret, ret; simpl.
  destruct (Ttl.cache_datasets st !! key) as [e|]; simpl; [| done].
  by destruct (Ttl.live _ e).
Qed.

Lemma ttl_cache_get_dataset_total (key : string) :
  never_throws (Ttl.cache_get_dataset env key).
Proof.
  intros st. unfold Ttl.cache_get_dataset, mbind, M_bind, bind, get_state,
    Ttl.interact, modify, mret, M_ret, ret; simpl.
  destruct (Ttl.cache_datasets st !! key) as [e|]; simpl; [| by eexists].
  destruct (Ttl.live _ e); by eexists.
Qed.

Lemma ttl_cache_get_join_settled (key : string) :
  ttl_settled (Ttl.cache_get_join env key).
Proof.
  intros k st Hk. unfold Ttl.cache_get_join, mbind, M_bind, bind, get_state,
    Ttl.interact, modify, mret, M_ret, ret; simpl.
  destruct (Ttl.cache_joins st !! key) as [e|]; simpl; [| done].
  by destruct (Ttl.live _ e).
Qed.

Lemma ttl_cache_get_join_total (key : string) :
  never_throws (Ttl.cache_get_join env key).
Proof.
  intros st. unfold Ttl.cache_get_join, mbind, M_bind, bind, get_state,
    Ttl.interact, modify, mret, M_ret, ret; simpl.
  destruct (Ttl.cache_joins st !! key) as [e|]; simpl; [| by eexists].
  destruct (Ttl.live _ e); by eexists.
Qed.

Lemma ttl_cache_set_dataset_settled (key : string) (d : Dataset) :
  ttl_settled (Ttl.cache_set_dataset env key d).
Proof. by intros k st Hk. Qed.

Lemma ttl_cache_set_join_settled (key : string) (j : JoinResult) :
  ttl_settled (Ttl.cache_set_join env key j).
Proof. by intros k st Hk. Qed.

Lemma ttl_getSheetsClient_settled : ttl_settled (Ttl.getSheetsClient env).
Proof.
  intros k st Hk. unfold Ttl.getSheetsClient.
  destruct (String.eqb _ _); [done |].
  destruct (credentials env); [| done | done].
  rewrite mbind_run. unfold Ttl.interact.
  by destruct (authorize env (Ttl.tick st)).
Qed.

Lemma ttl_getSheetValues_settled (range : string) :
  ttl_settled (Ttl.getSheetValues env range).
Proof.
  intros k st Hk. unfold Ttl.getSheetValues, mbind, M_bind, bind, modify,
    Ttl.interact; simpl.
  by destruct (values_get env _ range).
Qed.

Lemma ttl_count_request (k : Z) :
  on_exit (ttl_owes k) Ttl.count_request (ttl_owes (k + 1)).
Proof. intros st Hk. unfold ttl_owes in *. simpl. rewrite pending_request. lia. Qed.

Lemma ttl_count_hit (k : Z) : on_exit (ttl_owes (k + 1)) Ttl.count_hit (ttl_owes k).
Proof. intros st Hk. unfold ttl_owes in *. simpl. rewrite pending_hit. lia. Qed.

Lemma ttl_count_miss (k : Z) : on_exit (ttl_owes (k + 1)) Ttl.count_miss (ttl_owes k).
Proof. intros st Hk. unfold ttl_owes in *. simpl. rewrite pending_miss. lia. Qed.

Lemma settled_bind {A B} (m : M Ttl.Store A) (f : A → M Ttl.Store B) :
  ttl_settled m → (∀ a, ttl_settled (f a)) → ttl_settled (m ≫= f).
Proof.
  intros Hm Hf k. apply (on_exit_bind _ (ttl_owes k)); [apply Hm | done |].
  intros a. apply Hf.
Qed.

Lemma settled_ret {A} (a : A) : ttl_settled (mret a : M Ttl.Store A).
Proof. intros k. by apply on_exit_ret. Qed.

(** The shape of every cached accessor: count the request, look into the
    cache, count a hit and return, or count a miss and compute. *)
Lemma ttl_accessor_settled {A C} (get : M Ttl.Store (option C))
    (hit : C → M Ttl.Store A) (miss : M Ttl.Store A) :
  ttl_settled get → never_throws get →
  (∀ c, ttl_settled (hit c)) → ttl_settled miss →
  ttl_settled (Ttl.count_request;;
           cached ← get;
           match cached with
           | Some c => Ttl.count_hit;; hit c
           | None => Ttl.count_miss;; miss
           end).
Proof.
  intros Hget Htot Hhit Hmiss k.
  apply (on_exit_bind_total _ (ttl_owes (k + 1)));
    [apply never_throws_modify | apply ttl_count_request |]. intros _.
  apply (on_exit_bind_total _ (ttl_owes (k + 1))); [done | apply Hget |].
  intros [c|].
  - apply (on_exit_bind_total _ (ttl_owes k));
      [apply never_throws_modify | apply ttl_count_hit |]. intros _. apply Hhit.
  - apply (on_exit_bind_total _ (ttl_owes k));
      [apply never_throws_modify | apply ttl_count_miss |]. intros _. apply Hmiss.
Qed.

Lemma ttl_getProfile_settled : ttl_settled (Ttl.getProfile env).
Proof.
  unfold Ttl.getProfile; cbv zeta. apply ttl_accessor_settled.
  - apply ttl_cache_get_dataset_settled.
  - apply ttl_cache_get_dataset_total.
  - intros c. apply settled_ret.
  - apply settled_bind; [apply ttl_getSheetsClient_settled |]. intros _.
    apply settled_bind; [apply ttl_getSheetValues_settled |]. intros [|header rest].
    + apply settled_ret.
    + apply settled_bind; [apply ttl_cache_set_dataset_settled |]. intros _.
      apply settled_ret.
Qed.

Lemma ttl_getPerformanceFull_settled : ttl_settled (Ttl.getPerformanceFull env).
Proof.
  unfold Ttl.getPerformanceFull; cbv zeta. apply ttl_accessor_settled.
  - apply ttl_cache_get_dataset_settled.
  - apply ttl_cache_get_dataset_total.
  - intros c. apply settled_ret.
  - apply settled_bind; [apply ttl_getSheetsClient_settled |]. intros _.
    apply settled_bind; [apply ttl_getSheetValues_settled |]. intros headerRows.
    apply settled_bind; [apply ttl_getSheetValues_settled |]. intros dataRows.
    apply settled_bind; [apply ttl_cache_set_dataset_settled |]. intros _.
    apply settled_ret.
Qed.

Lemma ttl_getPerformanceKey_settled : ttl_settled (Ttl.getPerformanceKey env).
Proof.
  unfold Ttl.getPerformanceKey; cbv zeta. apply ttl_accessor_settled.
  - apply ttl_cache_get_dataset_settled.
  - apply ttl_cache_get_dataset_total.
  - intros c. apply settled_ret.
  - apply settled_bind; [apply ttl_getPerformanceFull_settled |]. intros full.
    destruct (filterToKeyCols _ _) as [hs rs].
    apply settled_bind; [apply ttl_cache_set_dataset_settled |]. intros _.
    apply settled_ret.
Qed.

Lemma ttl_getJoinedFull_settled : ttl_settled (Ttl.getJoinedFull env).
Proof.
  unfold Ttl.getJoinedFull; cbv zeta. apply ttl_accessor_settled.
  - apply ttl_cache_get_join_settled.
  - apply ttl_cache_get_join_total.
  - intros c. apply settled_ret.
  - apply settled_bind; [apply ttl_getProfile_settled |]. intros profile.
    apply settled_bind; [apply ttl_getPerformanceFull_settled |]. intros perf.
    apply settled_bind; [apply ttl_cache_set_join_settled |]. intros _.
    apply settled_ret.
Qed.

Lemma ttl_api_schools_settled (q : option qvalue) : ttl_settled (Ttl.api_schools env q).
Proof.
  intros k. unfold Ttl.api_schools.
  apply (on_exit_try_catch _ (ttl_owes k)); [| done |].
  - destruct (onlyMatched q).
    + apply settled_bind; [apply ttl_getJoinedFull_settled |]. intros r.
      apply settled_ret.
    + apply settled_bind; [apply ttl_getProfile_settled |]. intros profile.
      apply settled_bind; [apply ttl_getPerformanceFull_settled |]. intros perf.
      apply settled_ret.
  - intros msg st Hk. unfold ttl_owes in *. simpl. by rewrite pending_errors.
Qed.

(** The account of the requests after each accessor, spelled out. *)
Lemma ttl_accessors_settled (st : Ttl.Store) (q : option qvalue) :
  pending (Ttl.stats (Ttl.getProfile env st).2) = pending (Ttl.stats st)
  ∧ pending (Ttl.stats (Ttl.getPerformanceFull env st).2) = pending (Ttl.stats st)
  ∧ pending (Ttl.stats (Ttl.getPerformanceKey env st).2) = pending (Ttl.stats st)
  ∧ pending (Ttl.stats (Ttl.getJoinedFull env st).2) = pending (Ttl.stats st)
  ∧ pending (Ttl.stats (Ttl.api_schools env q st).2) = pending (Ttl.stats st).
Proof.
  split_and!.
  - by apply (ttl_getProfile_settled (pending (Ttl.stats st)) st).
  - by apply (ttl_getPerformanceFull_settled (pending (Ttl.stats st)) st).
  - by apply (ttl_getPerformanceKey_settled (pending (Ttl.stats st)) st).
  - by apply (ttl_getJoinedFull_settled (pending (Ttl.stats st)) st).
  - by apply (ttl_api_schools_settled q (pending (Ttl.stats st)) st).
Qed.
End TtlCounters.

(** X11.  In the TTL-cache server every counted request is accounted for
    as a hit or as a miss: whatever a dataset accessor or the
    [/api/schools] handler does, and whether it returns or throws,
    `totalRequests - cacheHits - cacheMisses` is afterwards what it was
    before; so `cacheHits + cacheMisses = totalRequests`, true at the
    start, stays true. *)
Theorem ttl_requests_accounted (env : Env) (st : Ttl.Store) (q : option qvalue) :
  pending (Ttl.stats (Ttl.getProfile env st).2) = pending (Ttl.stats st)
  ∧ pending (Ttl.stats (Ttl.getPerformanceFull env st).2) = pending (Ttl.stats st)
  ∧ pending (Ttl.stats (Ttl.getPerformanceKey env st).2) = pending (Ttl.stats st)
  ∧ pending (Ttl.stats (Ttl.getJoinedFull env st).2) = pending (Ttl.stats st)
  ∧ pending (Ttl.stats (Ttl.api_schools env q st).2) = pending (Ttl.stats st)
  ∧ pending stats0 = 0.
Proof.
  pose proof (ttl_accessors_settled env st q) as (? & ? & ? & ? & ?).
  by split_and!.
Qed.


(** ** Counters and configuration of the snapshot server *)

Section SnapRuns.
Variable env : Env.

Lemma snap_getSheetsClient_cases (st : Snap.Store) :
  (∃ msg, Snap.getSheetsClient env st = (Throw msg, st)
          ∨ Snap.getSheetsClient env st
            = (Throw msg, Snap.mkStore (Snap.SNAPSHOT st) (Snap.stats st) (Snap.disk st)
                            (S (Snap.tick st))))
  ∨ Snap.getSheetsClient env st = (Return tt, st)
  ∨ Snap.getSheetsClient env st
    = (Return tt, Snap.mkStore (Snap.SNAPSHOT st) (Snap.stats st) (Snap.disk st)
                    (S (Snap.tick st))).
Proof.
  unfold Snap.getSheetsClient.
  destruct (String.eqb _ _); [left; eexists; by left |].
  destruct (credentials env); [| by right; left | left; eexists; by left].
  rewrite mbind_run. unfold Snap.interact.
  destruct (authorize env (Snap.tick st)); [left; eexists; by right | by right; right].
Qed.

Lemma snap_getSheetsClient_stats (st : Snap.Store) :
  Snap.stats (Snap.getSheetsClient env st).2 = Snap.stats st
  ∧ Snap.SNAPSHOT (Snap.getSheetsClient env st).2 = Snap.SNAPSHOT st
  ∧ Snap.disk (Snap.getSheetsClient env st).2 = Snap.disk st.
Proof.
  destruct (snap_getSheetsClient_cases st) as [[msg [H|H]]|[H|H]]; by rewrite H.
Qed.

Lemma increment_apiCalls (s : Stats) :
  increment "apiCalls" s
  = mkStats (totalRequests s) (cacheHits s) (cacheMisses s) (S (apiCalls s))
            (errors s) (lastApiCall s).
Proof. reflexivity. Qed.

End SnapRuns.


(** X13.  Without [SPREADSHEET_ID] nothing is fetched: on an empty
    snapshot [/api/profile] answers 500 with the configuration message,
    having counted one request, one miss and one error and no API call,
    and a refresh throws the same message with the snapshot and all the
    counters as they were. *)
Theorem unconfigured_server_fetches_nothing (env : Env) (st : Snap.Store)
    (reason : option string) :
  SPREADSHEET_ID env = "" →
  Snap.profile (Snap.SNAPSHOT st) = None →
  Snap.api_profile env st
  = (Return (Error500 "SPREADSHEET_ID env var is required."),
     Snap.with_stats
       (fun s => increment "errors"
                   (increment "cacheMisses" (increment "totalRequests" s))) st)
  ∧ (Snap.refreshAll env reason st).1 = Throw "SPREADSHEET_ID env var is required."
  ∧ Snap.SNAPSHOT (Snap.refreshAll env reason st).2 = Snap.SNAPSHOT st
  ∧ Snap.stats (Snap.refreshAll env reason st).2 = Snap.stats st.
Proof.
  intros Hid Hprofile. split_and!.
  - unfold Snap.api_profile, Snap.getProfile, Snap.getSheetsClient, Snap.answer_500,
      Snap.count_request, Snap.count_miss, try_catch, mbind, M_bind, bind,
      get_state, modify, mret, M_ret, ret, throw; simpl.
    rewrite Hprofile, Hid. simpl. by destruct st.
  - unfold Snap.refreshAll, Snap.getSheetsClient. rewrite mbind_run, snap_interact_run.
    cbv beta iota. rewrite mbind_run, Hid. done.
  - unfold Snap.refreshAll, Snap.getSheetsClient. rewrite mbind_run, snap_interact_run.
    cbv beta iota. rewrite mbind_run, Hid. done.
  - unfold Snap.refreshAll, Snap.getSheetsClient. rewrite mbind_run, snap_interact_run.
    cbv beta iota. rewrite mbind_run, Hid. done.
Qed.

Lemma unconfigured_server_fetches_nothing_witness :
  SPREADSHEET_ID unconfigured_env = ""
  ∧ Snap.profile (Snap.SNAPSHOT snap_store0) = None
  ∧ (Snap.api_profile unconfigured_env snap_store0).1
    = Return (Error500 "SPREADSHEET_ID env var is required.")
  ∧ apiCalls (Snap.stats (Snap.api_profile unconfigured_env snap_store0).2) = 0%nat.
Proof.
  pose proof (unconfigured_server_fetches_nothing unconfigured_env snap_store0 None
                eq_refl eq_refl) as (H & _).
  split_and!; [reflexivity | reflexivity | by rewrite H | by rewrite H].
Defined.

(** ** Reading the snapshot *)

Section SnapReads.
Variable env : Env.

Lemma snap_getProfile_hit (st : Snap.Store) (d : Dataset) :
  Snap.profile (Snap.SNAPSHOT st) = Some d →
  Snap.getProfile env st
  = (Return d,
     Snap.with_stats (fun s => increment "cacheHits" (increment "totalRequests" s)) st).
Proof.
  intros H. unfold Snap.getProfile, Snap.count_request, Snap.count_hit,
    mbind, M_bind, bind, get_state, modify, mret, M_ret, ret; simpl.
  by rewrite H.
Qed.

Lemma snap_getPerformanceFull_hit (st : Snap.Store) (d : Dataset) :
  Snap.performance (Snap.SNAPSHOT st) = Some d →
  Snap.getPerformanceFull env st
  = (Return d,
     Snap.with_stats (fun s => increment "cacheHits" (increment "totalRequests" s)) st).
Proof.
  intros H. unfold Snap.getPerformanceFull, Snap.count_request, Snap.count_hit,
    mbind, M_bind, bind, get_state, modify, mret, M_ret, ret; simpl.
  by rewrite H.
Qed.

Lemma snap_getJoinedFull_hit (st : Snap.Store) (j : JoinResult) :
  Snap.joinedMatched (Snap.SNAPSHOT st) = Some j →
  Snap.getJoinedFull env st
  = (Return j,
     Snap.with_stats (fun s => increment "cacheHits" (increment "totalRequests" s)) st).
Proof.
  intros H. unfold Snap.getJoinedFull, Snap.count_request, Snap.count_hit.
  rewrite mbind_run, modify_run. cbv beta iota.
  rewrite mbind_run. unfold get_state at 1. cbv beta iota.
  cbn [Snap.with_stats Snap.SNAPSHOT]. rewrite H.
  rewrite mbind_run, modify_run. cbv beta iota. by destruct st.
Qed.
End SnapReads.

(** X14.  After a refresh that returns, the three getters serve the
    refreshed snapshot in any world, also one that has stopped answering:
    the join they return is the inner join of the profile and the
    performance table they return, each read counts one request and one
    hit, and none touches the snapshot or the outside world. *)
Theorem reads_after_refresh_are_consistent (env env' : Env) (reason : option string)
    (st st1 : Snap.Store) (meta : Snap.RefreshMeta) :
  Snap.refreshAll env reason st = (Return meta, st1) →
  ∃ p q : Dataset,
    Snap.getProfile env' st1
    = (Return p,
       Snap.with_stats (fun s => increment "cacheHits" (increment "totalRequests" s)) st1)
    ∧ Snap.getPerformanceFull env' st1
      = (Return q,
         Snap.with_stats (fun s => increment "cacheHits" (increment "totalRequests" s)) st1)
    ∧ Snap.getJoinedFull env' st1
      = (Return (innerJoin p q),
         Snap.with_stats (fun s => increment "cacheHits" (increment "totalRequests" s)) st1).
Proof.
  intros Hrun. pose proof (refreshAll_run env reason st) as H. rewrite Hrun in H.
  destruct H as (n1 & n2 & n3 & n4 & v1 & v2 & v3 & _ & _ & _ & _ & Hsnap).
  cbv zeta in Hsnap.
  exists (refreshed_profile (default [] v1)),
         (refreshed_performance (default [] v2) (default [] v3)).
  split_and!.
  - apply snap_getProfile_hit. by rewrite Hsnap.
  - apply snap_getPerformanceFull_hit. by rewrite Hsnap.
  - apply snap_getJoinedFull_hit. by rewrite Hsnap.
Qed.

Lemma reads_after_refresh_are_consistent_witness :
  let run := Snap.refreshAll example_env (Some "startup") snap_store0 in
  ∃ p q : Dataset,
    (Snap.getProfile quota_env run.2).1 = Return p
    ∧ (Snap.getPerformanceFull quota_env run.2).1 = Return q
    ∧ (Snap.getJoinedFull quota_env run.2).1 = Return (innerJoin p q).
Proof.
  intros run.
  assert (∃ meta, Snap.refreshAll example_env (Some "startup") snap_store0
                  = (Return meta, run.2)) as [meta Hrun].
  { eexists. vm_compute. reflexivity. }
  destruct (reads_after_refresh_are_consistent example_env quota_env
              (Some "startup") snap_store0 run.2 meta Hrun)
    as (p & q & Hp & Hq & Hj).
  exists p, q. rewrite Hp, Hq, Hj. split; [| split]; reflexivity.
Defined.

(** Closes a goal about the fields of the store reached, given what the
    client left of the snapshot and of the disk. *)
Ltac snap_same Hs Hd Hp :=
  intros [= <- <-]; simpl; rewrite ?Hs, ?Hd; simpl; rewrite ?Hp;
  split_and!; try done; auto.

Lemma snap_getProfile_fields (env : Env) (st st' : Snap.Store) (r : outcome Dataset) :
  Snap.getProfile env st = (r, st') →
  Snap.performance (Snap.SNAPSHOT st') = Snap.performance (Snap.SNAPSHOT st)
  ∧ Snap.joinedMatched (Snap.SNAPSHOT st') = Snap.joinedMatched (Snap.SNAPSHOT st)
  ∧ Snap.lastUpdated (Snap.SNAPSHOT st') = Snap.lastUpdated (Snap.SNAPSHOT st)
  ∧ Snap.lastReason (Snap.SNAPSHOT st') = Snap.lastReason (Snap.SNAPSHOT st)
  ∧ Snap.disk st' = Snap.disk st
  ∧ match r with
    | Return d =>
        Snap.profile (Snap.SNAPSHOT st') = Some d
        ∨ (d = mkDataset [] [] []
           ∧ Snap.profile (Snap.SNAPSHOT st) = None
           ∧ Snap.profile (Snap.SNAPSHOT st') = None)
    | Throw _ => Snap.profile (Snap.SNAPSHOT st') = Snap.profile (Snap.SNAPSHOT st)
    end.
Proof.
  destruct (Snap.profile (Snap.SNAPSHOT st)) as [d|] eqn:Hp.
  - rewrite (snap_getProfile_hit env st d Hp). intros [= <- <-]. simpl. rewrite Hp.
    split_and!; try done. by left.
  - unfold Snap.getProfile, Snap.count_request, Snap.count_miss.
    rewrite mbind_run, modify_run. cbv beta iota.
    rewrite mbind_run. unfold get_state at 1. cbv beta iota.
    cbn [Snap.with_stats Snap.SNAPSHOT]. rewrite Hp.
    rewrite mbind_run, modify_run. cbv beta iota.
    set (st1 := Snap.with_stats _ (Snap.with_stats _ st)).
    rewrite mbind_run.
    pose proof (snap_getSheetsClient_stats env st1) as (_ & Hs2 & Hd2).
    destruct (Snap.getSheetsClient env st1) as [[[]|msg] st2]; simpl in Hs2, Hd2;
      [| snap_same Hs2 Hd2 Hp].
    rewrite mbind_run, snap_getSheetValues_run.
    destruct (values_get env (S (Snap.tick st2)) PROFILE_RANGE) as [v|msg];
      [| snap_same Hs2 Hd2 Hp].
    destruct (default [] v) as [|header rest]; snap_same Hs2 Hd2 Hp.
Qed.

Lemma snap_getPerformanceFull_fields (env : Env) (st st' : Snap.Store)
    (r : outcome Dataset) :
  Snap.getPerformanceFull env st = (r, st') →
  Snap.profile (Snap.SNAPSHOT st') = Snap.profile (Snap.SNAPSHOT st)
  ∧ Snap.joinedMatched (Snap.SNAPSHOT st') = Snap.joinedMatched (Snap.SNAPSHOT st)
  ∧ Snap.lastUpdated (Snap.SNAPSHOT st') = Snap.lastUpdated (Snap.SNAPSHOT st)
  ∧ Snap.lastReason (Snap.SNAPSHOT st') = Snap.lastReason (Snap.SNAPSHOT st)
  ∧ Snap.disk st' = Snap.disk st
  ∧ match r with
    | Return d => Snap.performance (Snap.SNAPSHOT st') = Some d
    | Throw _ => Snap.performance (Snap.SNAPSHOT st') = Snap.performance (Snap.SNAPSHOT st)
    end.
Proof.
  destruct (Snap.performance (Snap.SNAPSHOT st)) as [d|] eqn:Hp.
  - rewrite (snap_getPerformanceFull_hit env st d Hp). intros [= <- <-]. simpl.
    by rewrite Hp.
  - unfold Snap.getPerformanceFull, Snap.count_request, Snap.count_miss.
    rewrite mbind_run, modify_run. cbv beta iota.
    rewrite mbind_run. unfold get_state at 1. cbv beta iota.
    cbn [Snap.with_stats Snap.SNAPSHOT]. rewrite Hp.
    rewrite mbind_run, modify_run. cbv beta iota.
    set (st1 := Snap.with_stats _ (Snap.with_stats _ st)).
    rewrite mbind_run.
    pose proof (snap_getSheetsClient_stats env st1) as (_ & Hs2 & Hd2).
    destruct (Snap.getSheetsClient env st1) as [[[]|msg] st2]; simpl in Hs2, Hd2;
      [| snap_same Hs2 Hd2 Hp].
    rewrite mbind_run, snap_getSheetValues_run.
    destruct (values_get env (S (Snap.tick st2)) PERF_HEADERS_RANGE) as [v|msg];
      [| snap_same Hs2 Hd2 Hp].
    rewrite mbind_run, snap_getSheetValues_run.
    destruct (values_get env _ PERF_DATA_RANGE) as [w|msg]; snap_same Hs2 Hd2 Hp.
Qed.


(** ** Snapshot file, continued *)

Lemma saveSnapshotToDisk_cases (env : Env) (st st' : Snap.Store)
    (r : outcome Snap.DiskResult) :
  Snap.saveSnapshotToDisk env st = (r, st') →
  Snap.SNAPSHOT st' = Snap.SNAPSHOT st
  ∧ Snap.stats st' = Snap.stats st
  ∧ ((r = Return Snap.DiskOk
      ∧ Snap.disk st'
        = Snap.mkDisk (Some (Snap.Json (Snap.serializable (Snap.SNAPSHOT st) (Snap.stats st))))
                      None)
     ∨ (∃ msg, r = Return (Snap.DiskFailed msg)
               ∧ Snap.snapshot_file (Snap.disk st') = Snap.snapshot_file (Snap.disk st))).
Proof.
  unfold Snap.saveSnapshotToDisk, Snap.fs_op, Snap.snapshotToSerializable,
    try_catch, mbind, M_bind, bind, get_state, modify, Snap.interact,
    mret, M_ret, ret, throw; simpl.
  destruct (fs_error env (Snap.tick st)) as [msg|]; simpl.
  - intros [= <- <-]; simpl. split_and!; [done | done |]. right. by exists msg.
  - destruct (fs_error env (S (Snap.tick st))) as [msg|]; simpl.
    + intros [= <- <-]; simpl. split_and!; [done | done |]. right. by exists msg.
    + intros [= <- <-]; simpl. split_and!; [done | done |]. by left.
Qed.

(** X16.  Saving the snapshot never throws and never touches the memory.
    It either reports success, and then the snapshot file holds the
    document of the current snapshot and counters and no temporary file is
    left, or it reports the failure, and then the snapshot file is what it
    was before: a failed save never damages the previous file. *)
Theorem saveSnapshotToDisk_replaces_or_keeps (env : Env) (st : Snap.Store) :
  ∃ (res : Snap.DiskResult) (st' : Snap.Store),
    Snap.saveSnapshotToDisk env st = (Return res, st')
    ∧ Snap.SNAPSHOT st' = Snap.SNAPSHOT st
    ∧ Snap.stats st' = Snap.stats st
    ∧ match res with
      | Snap.DiskOk =>
          Snap.snapshot_file (Snap.disk st')
          = Some (Snap.Json (Snap.serializable (Snap.SNAPSHOT st) (Snap.stats st)))
          ∧ Snap.tmp_file (Snap.disk st') = None
      | Snap.DiskFailed _ =>
          Snap.snapshot_file (Snap.disk st') = Snap.snapshot_file (Snap.disk st)
      end.
Proof.
  destruct (Snap.saveSnapshotToDisk env st) as [r st'] eqn:E.
  destruct (saveSnapshotToDisk_cases env st st' r E) as (Hs & Hc & [[-> Hd]|(msg & -> & Hd)]).
  - exists Snap.DiskOk, st'. rewrite Hd. by split_and!.
  - exists (Snap.DiskFailed msg), st'. by split_and!.
Qed.

Lemma loadSnapshotFromDisk_cases (env : Env) (st st' : Snap.Store)
    (r : outcome Snap.DiskResult) :
  Snap.loadSnapshotFromDisk env st = (r, st') →
  Snap.disk st' = Snap.disk st
  ∧ errors (Snap.stats st') = errors (Snap.stats st)
  ∧ ((∃ msg, r = Return (Snap.DiskFailed msg)
             ∧ Snap.SNAPSHOT st' = Snap.SNAPSHOT st
             ∧ Snap.stats st' = Snap.stats st)
     ∨ (∃ j, r = Return Snap.DiskOk
             ∧ Snap.snapshot_file (Snap.disk st) = Some (Snap.Json j)
             ∧ Snap.tick st' = S (Snap.tick st)
             ∧ Snap.SNAPSHOT st'
               = {| Snap.profile := Snap.j_profile j;
                    Snap.performance := Snap.j_performance j;
                    Snap.joinedMatched := Snap.j_joinedMatched j;
                    Snap.lastUpdated := Snap.string_or_null (Snap.j_lastUpdated j);
                    Snap.lastReason := Snap.string_or_null (Snap.j_lastReason j) |}
             ∧ Snap.stats st'
               = match Snap.j_stats j with
                 | Some d => Snap.assign_stats d (Snap.stats st)
                 | None => Snap.stats st
                 end)).
Proof.
  unfold Snap.loadSnapshotFromDisk, Snap.fs_op,
    try_catch, mbind, M_bind, bind, get_state, modify, Snap.interact,
    mret, M_ret, ret, throw; simpl.
  destruct (Snap.snapshot_file (Snap.disk st)) as [[|j]|] eqn:Hfile; simpl.
  - destruct (fs_error env (Snap.tick st)) as [msg|]; simpl;
      intros [= <- <-]; simpl; (split_and!; [done | done |]); left; by eexists.
  - destruct (fs_error env (Snap.tick st)) as [msg|]; simpl.
    + intros [= <- <-]; simpl. split_and!; [done | done |]. left. by eexists.
    + destruct (Snap.j_stats j) as [d|] eqn:Hd; simpl;
        intros [= <- <-]; simpl; (split_and!; [done | done |]); right;
        exists j; rewrite ?Hd; by split_and!.
  - intros [= <- <-]; simpl. split_and!; [done | done |]. left. by eexists.
Qed.

(** X17.  Loading the snapshot never throws and never writes to the disk.
    When it reports a failure (no file, a file that cannot be read or
    parsed) the snapshot and the counters in memory are what they were.
    When it reports success the five fields are those of the document, an
    empty [lastUpdated] or [lastReason] being read as [null], and the
    counters are those of the document except [errors], which is kept. *)
Theorem loadSnapshotFromDisk_loads_or_keeps (env : Env) (st : Snap.Store) :
  ∃ (res : Snap.DiskResult) (st' : Snap.Store),
    Snap.loadSnapshotFromDisk env st = (Return res, st')
    ∧ Snap.disk st' = Snap.disk st
    ∧ errors (Snap.stats st') = errors (Snap.stats st)
    ∧ match res with
      | Snap.DiskFailed _ =>
          Snap.SNAPSHOT st' = Snap.SNAPSHOT st ∧ Snap.stats st' = Snap.stats st
      | Snap.DiskOk =>
          ∃ j, Snap.snapshot_file (Snap.disk st) = Some (Snap.Json j)
               ∧ Snap.SNAPSHOT st'
                 = {| Snap.profile := Snap.j_profile j;
                      Snap.performance := Snap.j_performance j;
                      Snap.joinedMatched := Snap.j_joinedMatched j;
                      Snap.lastUpdated := Snap.string_or_null (Snap.j_lastUpdated j);
                      Snap.lastReason := Snap.string_or_null (Snap.j_lastReason j) |}
               ∧ ∀ d, Snap.j_stats j = Some d →
                      totalRequests (Snap.stats st') = Snap.j_totalRequests d
                      ∧ cacheHits (Snap.stats st') = Snap.j_cacheHits d
                      ∧ cacheMisses (Snap.stats st') = Snap.j_cacheMisses d
                      ∧ apiCalls (Snap.stats st') = Snap.j_apiCalls d
                      ∧ lastApiCall (Snap.stats st') = Snap.j_lastApiCall d
      end.
Proof.
  destruct (Snap.loadSnapshotFromDisk env st) as [r st'] eqn:E.
  destruct (loadSnapshotFromDisk_cases env st st' r E)
    as (Hd & He & [(msg & -> & Hs & Hc)|(j & -> & Hfile & _ & Hs & Hc)]).
  - exists (Snap.DiskFailed msg), st'. by split_and!.
  - exists Snap.DiskOk, st'. split_and!; [done | done | done |].
    exists j. split_and!; [done | done |]. intros d Hj. rewrite Hc, Hj. done.
Qed.

(** ** Start and administration *)







(** ** Routes *)

Section ErrorCounter.
Context {S : Type} (stats_of : S → Stats).

Lemma keeps_errors_ret {A} (a : A) : keeps_errors stats_of (mret a : M S A).
Proof. intros k. by apply on_exit_ret. Qed.

Lemma keeps_errors_throw {A} (msg : string) : keeps_errors stats_of (throw msg : M S A).
Proof. intros k. by apply on_exit_throw. Qed.

Lemma keeps_errors_get_state : keeps_errors stats_of (get_state : M S S).
Proof. intros k. by apply on_exit_get_state. Qed.

Lemma keeps_errors_bind {A B} (m : M S A) (f : A → M S B) :
  keeps_errors stats_of m → (∀ a, keeps_errors stats_of (f a)) → keeps_errors stats_of (m ≫= f).
Proof.
  intros Hm Hf k.
  apply (on_exit_bind _ (fun st => errors (stats_of st) = k)); [apply Hm | done |].
  intros a. apply Hf.
Qed.

(** A route: run the body, answer what it returns; when it throws, count
    an error and answer 500.  The route always answers, and the error
    counter has moved by one exactly when the answer is a 500. *)
Lemma route_answers {A} (body : M S (response A)) (count_error : S → S) (st : S) :
  keeps_errors stats_of body →
  on_return (fun _ => True) body (fun r _ => is_500 r = false) →
  (∀ st, errors (stats_of (count_error st)) = Datatypes.S (errors (stats_of st))) →
  ∃ (resp : response A) (st' : S),
    try_catch body (fun msg => modify count_error;; mret (Error500 msg)) st
    = (Return resp, st')
    ∧ errors (stats_of st')
      = if is_500 resp then Datatypes.S (errors (stats_of st)) else errors (stats_of st).
Proof.
  intros Hkeep Hok Hcount. rewrite try_catch_run.
  specialize (Hkeep (errors (stats_of st)) st eq_refl).
  destruct (body st) as [[r|msg] st1] eqn:E; simpl in Hkeep.
  - exists r, st1. split; [done |]. by rewrite (Hok st r st1 I E).
  - eexists (Error500 msg), _. split; [reflexivity |]. simpl. by rewrite Hcount, Hkeep.
Qed.

Lemma returns_200 {A B} (m : M S A) (f : A → B) :
  on_return (fun _ => True) (x ← m; mret (Json200 (f x)))
            (fun (r : response B) _ => is_500 r = false).
Proof.
  apply (on_return_bind _ (fun _ _ => True)); [done |].
  intros a. by apply on_return_ret.
Qed.
End ErrorCounter.

Lemma errors_increment_other (name : string) (s : Stats) :
  name ≠ "errors" → errors (increment name s) = errors s.
Proof.
  intros Hname. unfold increment.
  repeat (case_decide; [done |]). done.
Qed.

Lemma errors_increment_errors (s : Stats) :
  errors (increment "errors" s) = S (errors s).
Proof. reflexivity. Qed.

Section SnapRoutes.
Variable env : Env.

Lemma snap_keeps_errors_interact {A} (f : nat → A) :
  keeps_errors Snap.stats (Snap.interact f).
Proof. by intros k st Hk. Qed.

Lemma snap_keeps_errors_count (name : string) :
  name ≠ "errors" →
  keeps_errors Snap.stats (modify (Snap.with_stats (increment name))).
Proof.
  intros Hname k st Hk. simpl. by rewrite errors_increment_other.
Qed.

Lemma snap_keeps_errors_set (f : Snap.Snapshot → Snap.Snapshot) :
  keeps_errors Snap.stats (modify (Snap.with_SNAPSHOT f)).
Proof. by intros k st Hk. Qed.

Lemma snap_keeps_errors_client : keeps_errors Snap.stats (Snap.getSheetsClient env).
Proof.
  intros k st Hk. by destruct (snap_getSheetsClient_stats env st) as (-> & _ & _).
Qed.

Lemma snap_keeps_errors_values (range : string) :
  keeps_errors Snap.stats (Snap.getSheetValues env range).
Proof. intros k st Hk. by rewrite snap_getSheetValues_run. Qed.

Lemma snap_keeps_errors_getProfile : keeps_errors Snap.stats (Snap.getProfile env).
Proof.
  unfold Snap.getProfile, Snap.count_request, Snap.count_hit, Snap.count_miss.
  apply keeps_errors_bind; [by apply snap_keeps_errors_count |]. intros _.
  apply keeps_errors_bind; [apply keeps_errors_get_state |]. intros st.
  destruct (Snap.profile (Snap.SNAPSHOT st)).
  - apply keeps_errors_bind; [by apply snap_keeps_errors_count |]. intros _.
    apply keeps_errors_ret.
  - apply keeps_errors_bind; [by apply snap_keeps_errors_count |]. intros _.
    apply keeps_errors_bind; [apply snap_keeps_errors_client |]. intros _.
    apply keeps_errors_bind; [apply snap_keeps_errors_values |]. intros [|header rest].
    + apply keeps_errors_ret.
    + apply keeps_errors_bind; [apply snap_keeps_errors_set |]. intros _.
      apply keeps_errors_ret.
Qed.

Lemma snap_keeps_errors_getPerformanceFull :
  keeps_errors Snap.stats (Snap.getPerformanceFull env).
Proof.
  unfold Snap.getPerformanceFull, Snap.count_request, Snap.count_hit, Snap.count_miss.
  apply keeps_errors_bind; [by apply snap_keeps_errors_count |]. intros _.
  apply keeps_errors_bind; [apply keeps_errors_get_state |]. intros st.
  destruct (Snap.performance (Snap.SNAPSHOT st)).
  - apply keeps_errors_bind; [by apply snap_keeps_errors_count |]. intros _.
    apply keeps_errors_ret.
  - apply keeps_errors_bind; [by apply snap_keeps_errors_count |]. intros _.
    apply keeps_errors_bind; [apply snap_keeps_errors_client |]. intros _.
    apply keeps_errors_bind; [apply snap_keeps_errors_values |]. intros headerRows.
    apply keeps_errors_bind; [apply snap_keeps_errors_values |]. intros dataRows.
    apply keeps_errors_bind; [apply snap_keeps_errors_set |]. intros _.
    apply keeps_errors_ret.
Qed.

Lemma snap_keeps_errors_getJoinedFull :
  keeps_errors Snap.stats (Snap.getJoinedFull env).
Proof.
  unfold Snap.getJoinedFull, Snap.count_request, Snap.count_hit, Snap.count_miss.
  apply keeps_errors_bind; [by apply snap_keeps_errors_count |]. intros _.
  apply keeps_errors_bind; [apply keeps_errors_get_state |]. intros st.
  destruct (Snap.joinedMatched (Snap.SNAPSHOT st)).
  - apply keeps_errors_bind; [by apply snap_keeps_errors_count |]. intros _.
    apply keeps_errors_ret.
  - apply keeps_errors_bind; [by apply snap_keeps_errors_count |]. intros _.
    apply keeps_errors_bind; [apply snap_keeps_errors_getProfile |]. intros profile.
    apply keeps_errors_bind; [apply snap_keeps_errors_getPerformanceFull |]. intros perf.
    apply keeps_errors_bind; [apply snap_keeps_errors_set |]. intros _.
    apply keeps_errors_ret.
Qed.
End SnapRoutes.

(** X20.  No exception escapes a data route of the snapshot server:
    [/api/profile], [/api/performance], [/api/performance/key] and
    [/api/schools] always answer, with the data or with a 500, and the
    error counter has moved by one exactly when the answer is a 500. *)
Theorem snap_routes_answer (env : Env) (q : option qvalue) (st : Snap.Store) :
  (∃ resp st', Snap.api_profile env st = (Return resp, st')
     ∧ errors (Snap.stats st')
       = if is_500 resp then S (errors (Snap.stats st)) else errors (Snap.stats st))
  ∧ (∃ resp st', Snap.api_performance env st = (Return resp, st')
       ∧ errors (Snap.stats st')
         = if is_500 resp then S (errors (Snap.stats st)) else errors (Snap.stats st))
  ∧ (∃ resp st', Snap.api_performance_key env st = (Return resp, st')
       ∧ errors (Snap.stats st')
         = if is_500 resp then S (errors (Snap.stats st)) else errors (Snap.stats st))
  ∧ (∃ resp st', Snap.api_schools env q st = (Return resp, st')
       ∧ errors (Snap.stats st')
         = if is_500 resp then S (errors (Snap.stats st)) else errors (Snap.stats st)).
Proof.
  split_and!.
  - apply (route_answers Snap.stats _ (Snap.with_stats (increment "errors"))).
    + apply keeps_errors_bind; [apply snap_keeps_errors_getProfile |].
      intros d. apply keeps_errors_ret.
    + apply (returns_200 _ id).
    + done.
  - apply (route_answers Snap.stats _ (Snap.with_stats (increment "errors"))).
    + apply keeps_errors_bind; [apply snap_keeps_errors_getPerformanceFull |].
      intros d. apply keeps_errors_ret.
    + apply (returns_200 _ id).
    + done.
  - apply (route_answers Snap.stats _ (Snap.with_stats (increment "errors"))).
    + apply keeps_errors_bind; [apply snap_keeps_errors_getPerformanceFull |].
      intros d. destruct (filterToKeyCols _ _). apply keeps_errors_ret.
    + apply (on_return_bind _ (fun _ _ => True)); [done |].
      intros d. destruct (filterToKeyCols _ _). by apply on_return_ret.
    + done.
  - apply (route_answers Snap.stats _ (Snap.with_stats (increment "errors"))).
    + destruct (onlyMatched q).
      * apply keeps_errors_bind; [apply snap_keeps_errors_getJoinedFull |].
        intros d. apply keeps_errors_ret.
      * apply keeps_errors_bind; [apply snap_keeps_errors_getProfile |]. intros d.
        apply keeps_errors_bind; [apply snap_keeps_errors_getPerformanceFull |].
        intros d'. apply keeps_errors_ret.
    + destruct (onlyMatched q).
      * apply (returns_200 _ id).
      * apply (on_return_bind _ (fun _ _ => True)); [done |]. intros d.
        apply (returns_200 _ (fun perf => outerJoin d perf)).
    + done.
Qed.

Section TtlRoutes.
Variable env : Env.

Lemma ttl_keeps_errors_count (name : string) :
  name ≠ "errors" →
  keeps_errors Ttl.stats (modify (Ttl.with_stats (increment name))).
Proof.
  intros Hname k st Hk. simpl. by rewrite errors_increment_other.
Qed.

Lemma ttl_keeps_errors_get_dataset (key : string) :
  keeps_errors Ttl.stats (Ttl.cache_get_dataset env key).
Proof.
  intros k st Hk. unfold Ttl.cache_get_dataset, mbind, M_bind, bind, get_state,
    Ttl.interact, modify, mret, M_ret, ret; simpl.
  destruct (Ttl.cache_datasets st !! key) as [e|]; simpl; [| done].
  by destruct (Ttl.live _ e).
Qed.

Lemma ttl_keeps_errors_get_join (key : string) :
  keeps_errors Ttl.stats (Ttl.cache_get_join env key).
Proof.
  intros k st Hk. unfold Ttl.cache_get_join, mbind, M_bind, bind, get_state,
    Ttl.interact, modify, mret, M_ret, ret; simpl.
  destruct (Ttl.cache_joins st !! key) as [e|]; simpl; [| done].
  by destruct (Ttl.live _ e).
Qed.

Lemma ttl_keeps_errors_set_dataset (key : string) (d : Dataset) :
  keeps_errors Ttl.stats (Ttl.cache_set_dataset env key d).
Proof. by intros k st Hk. Qed.

Lemma ttl_keeps_errors_set_join (key : string) (j : JoinResult) :
  keeps_errors Ttl.stats (Ttl.cache_set_join env key j).
Proof. by intros k st Hk. Qed.

Lemma ttl_keeps_errors_client : keeps_errors Ttl.stats (Ttl.getSheetsClient env).
Proof.
  intros k st Hk. unfold Ttl.getSheetsClient.
  destruct (String.eqb _ _); [done |].
  destruct (credentials env); [| done | done].
  rewrite mbind_run. unfold Ttl.interact.
  by destruct (authorize env (Ttl.tick st)).
Qed.

Lemma ttl_keeps_errors_values (range : string) :
  keeps_errors Ttl.stats (Ttl.getSheetValues env range).
Proof.
  intros k st Hk. unfold Ttl.getSheetValues, mbind, M_bind, bind, modify,
    Ttl.interact; simpl.
  by destruct (values_get env _ range).
Qed.

Lemma ttl_keeps_errors_getProfile : keeps_errors Ttl.stats (Ttl.getProfile env).
Proof.
  unfold Ttl.getProfile, Ttl.count_request, Ttl.count_hit, Ttl.count_miss; cbv zeta.
  apply keeps_errors_bind; [by apply ttl_keeps_errors_count |]. intros _.
  apply keeps_errors_bind; [apply ttl_keeps_errors_get_dataset |]. intros [c|].
  - apply keeps_errors_bind; [by apply ttl_keeps_errors_count |]. intros _.
    apply keeps_errors_ret.
  - apply keeps_errors_bind; [by apply ttl_keeps_errors_count |]. intros _.
    apply keeps_errors_bind; [apply ttl_keeps_errors_client |]. intros _.
    apply keeps_errors_bind; [apply ttl_keeps_errors_values |]. intros [|header rest].
    + apply keeps_errors_ret.
    + apply keeps_errors_bind; [apply ttl_keeps_errors_set_dataset |]. intros _.
      apply keeps_errors_ret.
Qed.

Lemma ttl_keeps_errors_getPerformanceFull :
  keeps_errors Ttl.stats (Ttl.getPerformanceFull env).
Proof.
  unfold Ttl.getPerformanceFull, Ttl.count_request, Ttl.count_hit, Ttl.count_miss;
    cbv zeta.
  apply keeps_errors_bind; [by apply ttl_keeps_errors_count |]. intros _.
  apply keeps_errors_bind; [apply ttl_keeps_errors_get_dataset |]. intros [c|].
  - apply keeps_errors_bind; [by apply ttl_keeps_errors_count |]. intros _.
    apply keeps_errors_ret.
  - apply keeps_errors_bind; [by apply ttl_keeps_errors_count |]. intros _.
    apply keeps_errors_bind; [apply ttl_keeps_errors_client |]. intros _.
    apply keeps_errors_bind; [apply ttl_keeps_errors_values |]. intros headerRows.
    apply keeps_errors_bind; [apply ttl_keeps_errors_values |]. intros dataRows.
    apply keeps_errors_bind; [apply ttl_keeps_errors_set_dataset |]. intros _.
    apply keeps_errors_ret.
Qed.

Lemma ttl_keeps_errors_getPerformanceKey :
  keeps_errors Ttl.stats (Ttl.getPerformanceKey env).
Proof.
  unfold Ttl.getPerformanceKey, Ttl.count_request, Ttl.count_hit, Ttl.count_miss;
    cbv zeta.
  apply keeps_errors_bind; [by apply ttl_keeps_errors_count |]. intros _.
  apply keeps_errors_bind; [apply ttl_keeps_errors_get_dataset |]. intros [c|].
  - apply keeps_errors_bind; [by apply ttl_keeps_errors_count |]. intros _.
    apply keeps_errors_ret.
  - apply keeps_errors_bind; [by apply ttl_keeps_errors_count |]. intros _.
    apply keeps_errors_bind; [apply ttl_keeps_errors_getPerformanceFull |]. intros full.
    destruct (filterToKeyCols _ _).
    apply keeps_errors_bind; [apply ttl_keeps_errors_set_dataset |]. intros _.
    apply keeps_errors_ret.
Qed.

Lemma ttl_keeps_errors_getJoinedFull :
  keeps_errors Ttl.stats (Ttl.getJoinedFull env).
Proof.
  unfold Ttl.getJoinedFull, Ttl.count_request, Ttl.count_hit, Ttl.count_miss; cbv zeta.
  apply keeps_errors_bind; [by apply ttl_keeps_errors_count |]. intros _.
  apply keeps_errors_bind; [apply ttl_keeps_errors_get_join |]. intros [c|].
  - apply keeps_errors_bind; [by apply ttl_keeps_errors_count |]. intros _.
    apply keeps_errors_ret.
  - apply keeps_errors_bind; [by apply ttl_keeps_errors_count |]. intros _.
    apply keeps_errors_bind; [apply ttl_keeps_errors_getProfile |]. intros profile.
    apply keeps_errors_bind; [apply ttl_keeps_errors_getPerformanceFull |]. intros perf.
    apply keeps_errors_bind; [apply ttl_keeps_errors_set_join |]. intros _.
    apply keeps_errors_ret.
Qed.
End TtlRoutes.

(** X21.  No exception escapes a data route of the TTL-cache server:
    [/api/profile], [/api/performance], [/api/performance/key] and
    [/api/schools] always answer, with the data or with a 500, and the
    error counter has moved by one exactly when the answer is a 500. *)
Theorem ttl_routes_answer (env : Env) (q : option qvalue) (st : Ttl.Store) :
  (∃ resp st', Ttl.api_profile env st = (Return resp, st')
     ∧ errors (Ttl.stats st')
       = if is_500 resp then S (errors (Ttl.stats st)) else errors (Ttl.stats st))
  ∧ (∃ resp st', Ttl.api_performance env st = (Return resp, st')
       ∧ errors (Ttl.stats st')
         = if is_500 resp then S (errors (Ttl.stats st)) else errors (Ttl.stats st))
  ∧ (∃ resp st', Ttl.api_performance_key env st = (Return resp, st')
       ∧ errors (Ttl.stats st')
         = if is_500 resp then S (errors (Ttl.stats st)) else errors (Ttl.stats st))
  ∧ (∃ resp st', Ttl.api_schools env q st = (Return resp, st')
       ∧ errors (Ttl.stats st')
         = if is_500 resp then S (errors (Ttl.stats st)) else errors (Ttl.stats st)).
Proof.
  split_and!.
  - apply (route_answers Ttl.stats _ (Ttl.with_stats (increment "errors"))).
    + apply keeps_errors_bind; [apply ttl_keeps_errors_getProfile |].
      intros d. apply keeps_errors_ret.
    + apply (returns_200 _ id).
    + done.
  - apply (route_answers Ttl.stats _ (Ttl.with_stats (increment "errors"))).
    + apply keeps_errors_bind; [apply ttl_keeps_errors_getPerformanceFull |].
      intros d. apply keeps_errors_ret.
    + apply (returns_200 _ id).
    + done.
  - apply (route_answers Ttl.stats _ (Ttl.with_stats (increment "errors"))).
    + apply keeps_errors_bind; [apply ttl_keeps_errors_getPerformanceKey |].
      intros d. apply keeps_errors_ret.
    + apply (returns_200 _ id).
    + done.
  - apply (route_answers Ttl.stats _ (Ttl.with_stats (increment "errors"))).
    + destruct (onlyMatched q).
      * apply keeps_errors_bind; [apply ttl_keeps_errors_getJoinedFull |].
        intros d. apply keeps_errors_ret.
      * apply keeps_errors_bind; [apply ttl_keeps_errors_getProfile |]. intros d.
        apply keeps_errors_bind; [apply ttl_keeps_errors_getPerformanceFull |].
        intros d'. apply keeps_errors_ret.
    + destruct (onlyMatched q).
      * apply (returns_200 _ id).
      * apply (on_return_bind _ (fun _ _ => True)); [done |]. intros d.
        apply (returns_200 _ (fun perf => outerJoin d perf)).
    + done.
Qed.

(** ** What the TTL cache holds *)

Section TtlStores.
Variable env : Env.

(** The cache holds [d] under the dataset key [key]. *)
Let holds (key : string) (d : Dataset) (st : Ttl.Store) : Prop :=
  ∃ t, Ttl.cache_datasets st !! key = Some (d, t).

Let holds_join (key : string) (j : JoinResult) (st : Ttl.Store) : Prop :=
  ∃ t, Ttl.cache_joins st !! key = Some (j, t).

Lemma ttl_cache_get_dataset_returns (key : string) :
  on_return (fun _ => True) (Ttl.cache_get_dataset env key)
    (fun c st => match c with
                 | Some d => holds key d st
                 | None => Ttl.cache_datasets st !! key = None
                 end).
Proof.
  intros st c st' _. unfold Ttl.cache_get_dataset, mbind, M_bind, bind, get_state,
    Ttl.interact, modify, mret, M_ret, ret; simpl.
  destruct (Ttl.cache_datasets st !! key) as [[d t]|] eqn:E; simpl.
  - destruct (Ttl.live _ _); simpl; intros [= <- <-]; simpl.
    + by exists t.
    + apply lookup_delete_eq.
  - by intros [= <- <-].
Qed.

Lemma ttl_cache_get_join_returns (key : string) :
  on_return (fun _ => True) (Ttl.cache_get_join env key)
    (fun c st => match c with
                 | Some j => holds_join key j st
                 | None => True
                 end).
Proof.
  intros st c st' _. unfold Ttl.cache_get_join, mbind, M_bind, bind, get_state,
    Ttl.interact, modify, mret, M_ret, ret; simpl.
  destruct (Ttl.cache_joins st !! key) as [[j t]|] eqn:E; simpl.
  - destruct (Ttl.live _ _); simpl; intros [= <- <-]; simpl; [by exists t | done].
  - by intros [= <- <-].
Qed.

(** What a computation leaves of the dataset cache. *)
Let keeps_datasets {A} (m : M Ttl.Store A) : Prop :=
  ∀ P : gmap string (Dataset * Z) → Prop,
    on_return (fun st => P (Ttl.cache_datasets st)) m
              (fun _ st => P (Ttl.cache_datasets st)).

Lemma ttl_count_keeps_datasets (name : string) :
  keeps_datasets (modify (Ttl.with_stats (increment name))).
Proof. intros P. by apply on_return_modify. Qed.

Lemma ttl_client_keeps_datasets : keeps_datasets (Ttl.getSheetsClient env).
Proof.
  intros P st a st' HP. unfold Ttl.getSheetsClient.
  destruct (String.eqb _ _); [done |].
  destruct (credentials env); [| by intros [= <- <-] | done].
  rewrite mbind_run. unfold Ttl.interact.
  destruct (authorize env (Ttl.tick st)); [done | by intros [= <- <-]].
Qed.

Lemma ttl_values_keeps_datasets (range : string) :
  keeps_datasets (Ttl.getSheetValues env range).
Proof.
  intros P st a st' HP. unfold Ttl.getSheetValues, mbind, M_bind, bind, modify,
    Ttl.interact; simpl.
  destruct (values_get env _ range); [by intros [= <- <-] | done].
Qed.

Lemma ttl_cache_set_dataset_returns (key : string) (d : Dataset) (P : Ttl.Store → Prop) :
  on_return P (Ttl.cache_set_dataset env key d) (fun _ st => holds key d st).
Proof.
  intros st a st' _ [= <- <-]. simpl. eexists. apply lookup_insert_eq.
Qed.

Lemma ttl_cache_set_join_returns (key : string) (j : JoinResult) (P : Ttl.Store → Prop) :
  on_return P (Ttl.cache_set_join env key j) (fun _ st => holds_join key j st).
Proof.
  intros st a st' _ [= <- <-]. simpl. eexists. apply lookup_insert_eq.
Qed.

Lemma on_return_any {A} (P : Ttl.Store → Prop) (m : M Ttl.Store A) :
  on_return P m (fun _ _ => True).
Proof. done. Qed.

(** The end of every miss: store the result, return it. *)
Lemma ttl_store_and_return (key : string) (d : Dataset) (P : Ttl.Store → Prop) :
  on_return P (Ttl.cache_set_dataset env key d;; mret d) (holds key).
Proof.
  apply (on_return_bind _ (fun _ => holds key d));
    [apply ttl_cache_set_dataset_returns |].
  intros _. by apply on_return_ret.
Qed.

Lemma ttl_getPerformanceFull_holds :
  on_return (fun _ => True) (Ttl.getPerformanceFull env) (holds "performance_full").
Proof.
  unfold Ttl.getPerformanceFull, Ttl.count_request, Ttl.count_hit, Ttl.count_miss;
    cbv zeta.
  apply (on_return_bind _ (fun _ _ => True)); [done |]. intros _.
  apply (on_return_bind _ _ _ _ _ (ttl_cache_get_dataset_returns _)). intros [c|].
  - apply (on_return_bind _ (fun _ => holds "performance_full" c)).
    + intros st a st' H [= <- <-]. done.
    + intros _. by apply on_return_ret.
  - apply (on_return_bind _ (fun _ _ => True)); [done |]. intros _.
    apply (on_return_bind _ (fun _ _ => True)); [done |]. intros _.
    apply (on_return_bind _ (fun _ _ => True)); [done |]. intros headerRows.
    apply (on_return_bind _ (fun _ _ => True)); [done |]. intros dataRows.
    apply ttl_store_and_return.
Qed.

Lemma ttl_getPerformanceKey_holds :
  on_return (fun _ => True) (Ttl.getPerformanceKey env) (holds "performance_key").
Proof.
  unfold Ttl.getPerformanceKey, Ttl.count_request, Ttl.count_hit, Ttl.count_miss;
    cbv zeta.
  apply (on_return_bind _ (fun _ _ => True)); [done |]. intros _.
  apply (on_return_bind _ _ _ _ _ (ttl_cache_get_dataset_returns _)). intros [c|].
  - apply (on_return_bind _ (fun _ => holds "performance_key" c)).
    + intros st a st' H [= <- <-]. done.
    + intros _. by apply on_return_ret.
  - apply (on_return_bind _ (fun _ _ => True)); [done |]. intros _.
    apply (on_return_bind _ (fun _ _ => True)); [done |]. intros full.
    destruct (filterToKeyCols _ _). apply ttl_store_and_return.
Qed.

Lemma ttl_getJoinedFull_holds :
  on_return (fun _ => True) (Ttl.getJoinedFull env) (holds_join "joined_full_matched").
Proof.
  unfold Ttl.getJoinedFull, Ttl.count_request, Ttl.count_hit, Ttl.count_miss;
    cbv zeta.
  apply (on_return_bind _ (fun _ _ => True)); [done |]. intros _.
  apply (on_return_bind _ _ _ _ _ (ttl_cache_get_join_returns _)). intros [c|].
  - apply (on_return_bind _ (fun _ => holds_join "joined_full_matched" c)).
    + intros st a st' H [= <- <-]. done.
    + intros _. by apply on_return_ret.
  - apply (on_return_bind _ (fun _ _ => True)); [done |]. intros _.
    apply (on_return_bind _ (fun _ _ => True)); [done |]. intros profile.
    apply (on_return_bind _ (fun _ _ => True)); [done |]. intros perf.
    apply (on_return_bind _ (fun _ => holds_join "joined_full_matched"
                                        (innerJoin profile perf)));
      [apply ttl_cache_set_join_returns |].
    intros _. by apply on_return_ret.
Qed.

(** The profile accessor: what it returns is in the cache, unless it is
    the empty dataset answered for an empty sheet, and then the cache has
    no profile. *)
Lemma ttl_getProfile_holds :
  on_return (fun _ => True) (Ttl.getProfile env)
    (fun d st => holds "profile_full" d st
                 ∨ (d = mkDataset [] [] []
                    ∧ Ttl.cache_datasets st !! "profile_full" = None)).
Proof.
  unfold Ttl.getProfile, Ttl.count_request, Ttl.count_hit, Ttl.count_miss; cbv zeta.
  apply (on_return_bind _ (fun _ _ => True)); [done |]. intros _.
  apply (on_return_bind _ _ _ _ _ (ttl_cache_get_dataset_returns _)). intros [c|].
  - apply (on_return_bind _ (fun _ => holds "profile_full" c)).
    + intros st a st' H [= <- <-]. done.
    + intros _. apply on_return_ret. by left.
  - apply (on_return_bind _ _ _ _ _
             (ttl_count_keeps_datasets "cacheMisses" (fun c => c !! "profile_full" = None))).
    intros _.
    apply (on_return_bind _ _ _ _ _
             (ttl_client_keeps_datasets (fun c => c !! "profile_full" = None))).
    intros _.
    apply (on_return_bind _ _ _ _ _
             (ttl_values_keeps_datasets PROFILE_RANGE (fun c => c !! "profile_full" = None))).
    intros [|header rest].
    + apply on_return_ret. intros st H. by right.
    + intros st d st' _ Hrun. left.
      by apply (ttl_store_and_return "profile_full" _ (fun _ => True) st d st' I Hrun).
Qed.

Lemma ttl_cache_get_dataset_live (key : string) (st : Ttl.Store) (d : Dataset) (t : Z) :
  Ttl.cache_datasets st !! key = Some (d, t) →
  Ttl.live (Date_now env (Ttl.tick st)) (d, t) = true →
  Ttl.cache_get_dataset env key st
  = (Return (Some d),
     Ttl.mkStore (Ttl.cache_datasets st) (Ttl.cache_joins st) (Ttl.stats st)
                 (S (Ttl.tick st))).
Proof.
  intros Hentry Hlive. unfold Ttl.cache_get_dataset, mbind, M_bind, bind, get_state,
    Ttl.interact, modify, mret, M_ret, ret; simpl.
  by rewrite Hentry, Hlive.
Qed.

Lemma ttl_getPerformanceKey_hit (st : Ttl.Store) (d : Dataset) (t : Z) :
  Ttl.cache_datasets st !! "performance_key" = Some (d, t) →
  Ttl.live (Date_now env (Ttl.tick st)) (d, t) = true →
  Ttl.getPerformanceKey env st
  = (Return d,
     Ttl.mkStore (Ttl.cache_datasets st) (Ttl.cache_joins st)
       (increment "cacheHits" (increment "totalRequests" (Ttl.stats st)))
       (S (Ttl.tick st))).
Proof.
  intros Hentry Hlive. unfold Ttl.getPerformanceKey, Ttl.count_request, Ttl.count_hit;
    cbv zeta.
  rewrite mbind_run, modify_run. cbv beta iota.
  rewrite mbind_run, (ttl_cache_get_dataset_live _ _ d t) by done. cbv beta iota.
  rewrite mbind_run, modify_run. done.
Qed.

Lemma ttl_getJoinedFull_hit (st : Ttl.Store) (j : JoinResult) (t : Z) :
  Ttl.cache_joins st !! "joined_full_matched" = Some (j, t) →
  Ttl.live (Date_now env (Ttl.tick st)) (j, t) = true →
  Ttl.getJoinedFull env st
  = (Return j,
     Ttl.mkStore (Ttl.cache_datasets st) (Ttl.cache_joins st)
       (increment "cacheHits" (increment "totalRequests" (Ttl.stats st)))
       (S (Ttl.tick st))).
Proof.
  intros Hentry Hlive. unfold Ttl.getJoinedFull, Ttl.count_request, Ttl.count_hit;
    cbv zeta.
  rewrite mbind_run, modify_run. cbv beta iota.
  rewrite mbind_run.
  assert (Ttl.cache_get_join env "joined_full_matched"
            (Ttl.with_stats (increment "totalRequests") st)
          = (Return (Some j),
             Ttl.mkStore (Ttl.cache_datasets st) (Ttl.cache_joins st)
               (increment "totalRequests" (Ttl.stats st)) (S (Ttl.tick st)))) as ->.
  { unfold Ttl.cache_get_join, mbind, M_bind, bind, get_state,
      Ttl.interact, modify, mret, M_ret, ret; simpl.
    by rewrite Hentry, Hlive. }
  cbv beta iota. rewrite mbind_run, modify_run. done.
Qed.

Lemma ttl_stored_reads (st st1 : Ttl.Store) :
  (∀ d, Ttl.getPerformanceFull env st = (Return d, st1) →
        ∃ t, Ttl.cache_datasets st1 !! "performance_full" = Some (d, t))
  ∧ (∀ d, Ttl.getPerformanceKey env st = (Return d, st1) →
          ∃ t, Ttl.cache_datasets st1 !! "performance_key" = Some (d, t))
  ∧ (∀ j, Ttl.getJoinedFull env st = (Return j, st1) →
          ∃ t, Ttl.cache_joins st1 !! "joined_full_matched" = Some (j, t))
  ∧ (∀ d, Ttl.getProfile env st = (Return d, st1) →
          (∃ t, Ttl.cache_datasets st1 !! "profile_full" = Some (d, t))
          ∨ (d = mkDataset [] [] []
             ∧ Ttl.cache_datasets st1 !! "profile_full" = None)).
Proof.
  split_and!.
  - intros d H. by apply (ttl_getPerformanceFull_holds st d st1 I H).
  - intros d H. by apply (ttl_getPerformanceKey_holds st d st1 I H).
  - intros j H. by apply (ttl_getJoinedFull_holds st j st1 I H).
  - intros d H. by apply (ttl_getProfile_holds st d st1 I H).
Qed.
End TtlStores.


(** X22.  Cache idempotence of the accessors that store what they compute.
    For [getPerformanceFull], [getPerformanceKey] and [getJoinedFull]: a
    read that returns leaves what it returned in the cache under the
    accessor's key, so that a second read, made while that entry is live,
    returns the same content, counts one hit and no miss, and makes no
    upstream request.  So do two reads of the join of the example
    tables. *)
Theorem ttl_second_read_hits :
  (∀ (env : Env) (st st1 : Ttl.Store),
     (∀ d, Ttl.getPerformanceFull env st = (Return d, st1) →
           (∀ t, Ttl.cache_datasets st1 !! "performance_full" = Some (d, t) →
                 Ttl.live (Date_now env (Ttl.tick st1)) (d, t) = true) →
           ∃ st2, Ttl.getPerformanceFull env st1 = (Return d, st2)
                  ∧ cacheHits (Ttl.stats st2) = S (cacheHits (Ttl.stats st1))
                  ∧ cacheMisses (Ttl.stats st2) = cacheMisses (Ttl.stats st1)
                  ∧ apiCalls (Ttl.stats st2) = apiCalls (Ttl.stats st1))
     ∧ (∀ d, Ttl.getPerformanceKey env st = (Return d, st1) →
             (∀ t, Ttl.cache_datasets st1 !! "performance_key" = Some (d, t) →
                   Ttl.live (Date_now env (Ttl.tick st1)) (d, t) = true) →
             ∃ st2, Ttl.getPerformanceKey env st1 = (Return d, st2)
                    ∧ cacheHits (Ttl.stats st2) = S (cacheHits (Ttl.stats st1))
                    ∧ cacheMisses (Ttl.stats st2) = cacheMisses (Ttl.stats st1)
                    ∧ apiCalls (Ttl.stats st2) = apiCalls (Ttl.stats st1))
     ∧ (∀ j, Ttl.getJoinedFull env st = (Return j, st1) →
             (∀ t, Ttl.cache_joins st1 !! "joined_full_matched" = Some (j, t) →
                   Ttl.live (Date_now env (Ttl.tick st1)) (j, t) = true) →
             ∃ st2, Ttl.getJoinedFull env st1 = (Return j, st2)
                    ∧ cacheHits (Ttl.stats st2) = S (cacheHits (Ttl.stats st1))
                    ∧ cacheMisses (Ttl.stats st2) = cacheMisses (Ttl.stats st1)
                    ∧ apiCalls (Ttl.stats st2) = apiCalls (Ttl.stats st1)))
  ∧ (let first := Ttl.getJoinedFull example_env ttl_store0 in
     let second := Ttl.getJoinedFull example_env first.2 in
     match first.1 with Return j => count j = 2%nat | Throw _ => False end
     ∧ second.1 = first.1
     ∧ cacheMisses (Ttl.stats first.2) = 3%nat
     ∧ cacheMisses (Ttl.stats second.2) = 3%nat
     ∧ cacheHits (Ttl.stats second.2) = 1%nat
     ∧ apiCalls (Ttl.stats second.2) = apiCalls (Ttl.stats first.2)).
Proof.
  split; [| by vm_compute].
  intros env st st1.
  pose proof (ttl_stored_reads env st st1) as (Hfull & Hkey & Hjoin & _).
  split_and!.
  - intros d Hrun Hlive. destruct (Hfull d Hrun) as [t Ht].
    eexists. split; [apply (ttl_getPerformanceFull_hit env st1 d t Ht (Hlive t Ht)) |].
    done.
  - intros d Hrun Hlive. destruct (Hkey d Hrun) as [t Ht].
    eexists. split; [apply (ttl_getPerformanceKey_hit env st1 d t Ht (Hlive t Ht)) |].
    done.
  - intros j Hrun Hlive. destruct (Hjoin j Hrun) as [t Ht].
    eexists. split; [apply (ttl_getJoinedFull_hit env st1 j t Ht (Hlive t Ht)) |].
    done.
Qed.


(** ** Header matching and letter case *)

Lemma white_space_lower_char (a : ascii) :
  Js.is_white_space (Js.lower_char a) = Js.is_white_space a.
Proof. destruct a as [[] [] [] [] [] [] [] []]; by vm_compute. Qed.









(** ** Sizes of the joins *)

Lemma newSet_length_le (acc xs : list string) :
  (length (foldl set_add acc xs) ≤ length acc + length xs)%nat.
Proof.
  revert acc. induction xs as [|x xs IH]; intros acc; simpl; [lia |].
  specialize (IH (set_add acc x)). unfold set_add in *.
  destruct (decide (x ∈ acc)); [lia |]. rewrite length_app in IH. simpl in IH. lia.
Qed.

Lemma toKeyedBySchoolId_size (objs : list record) (headerRow : list cell) :
  (length (JsMap.keys (toKeyedBySchoolId objs headerRow)) ≤ length objs)%nat.
Proof.
  rewrite toKeyedBySchoolId_unfold. destruct (findSchoolIdHeader headerRow) as [key|].
  - rewrite index_loop_keys. unfold newSet.
    etrans; [apply newSet_length_le |]. rewrite length_fmap. simpl.
    apply length_filter.
  - simpl. lia.
Qed.

Lemma join_counts (profile perf : Dataset) :
  let ps := JsMap.keys (toKeyedBySchoolId (data profile) (headers profile)) in
  let qs := JsMap.keys (toKeyedBySchoolId (data perf) (headers perf)) in
  count (innerJoin profile perf) = length (filter (fun id => id ∈ qs) ps)
  ∧ count (outerJoin profile perf)
    = (length ps + length (filter (fun id => id ∉ ps) qs))%nat.
Proof.
  intros ps qs. split.
  - unfold innerJoin. simpl. by rewrite merge_all_map, inner_ids_filter, length_fmap.
  - change (count (outerJoin profile perf)) with (length (joined (outerJoin profile perf))).
    pose proof (outerJoin_joined profile perf) as Hout. cbv zeta in Hout.
    by rewrite Hout, length_fmap, length_app.
Qed.

(** X25.  Neither join invents records.  The inner join has at most as many
    records as either table has, the outer join at most as many as both
    tables together; and exchanging the two tables changes neither
    count. *)
Theorem join_counts_bounded (profile perf : Dataset) :
  (count (innerJoin profile perf) ≤ length (data profile))%nat
  ∧ (count (innerJoin profile perf) ≤ length (data perf))%nat
  ∧ (count (outerJoin profile perf) ≤ length (data profile) + length (data perf))%nat
  ∧ count (innerJoin profile perf) = count (innerJoin perf profile)
  ∧ count (outerJoin profile perf) = count (outerJoin perf profile).
Proof.
  pose proof (toKeyedBySchoolId_NoDup (data profile) (headers profile)) as Hp.
  pose proof (toKeyedBySchoolId_NoDup (data perf) (headers perf)) as Hq.
  pose proof (toKeyedBySchoolId_size (data profile) (headers profile)) as Lp.
  pose proof (toKeyedBySchoolId_size (data perf) (headers perf)) as Lq.
  destruct (join_counts profile perf) as [Hi Ho].
  destruct (join_counts perf profile) as [Hi' Ho'].
  cbv zeta in Hi, Ho, Hi', Ho'.
  set (ps := JsMap.keys (toKeyedBySchoolId (data profile) (headers profile))) in *.
  set (qs := JsMap.keys (toKeyedBySchoolId (data perf) (headers perf))) in *.
  pose proof (common_keys_length ps qs Hp Hq) as Hsym.
  pose proof (length_filter (fun id => id ∈ qs) ps) as Fp.
  pose proof (length_filter (fun id => id ∉ ps) qs) as Fq.
  pose proof (Permutation_length (filter_app_complement (fun id => id ∈ ps) qs)) as Cq.
  pose proof (Permutation_length (filter_app_complement (fun id => id ∈ qs) ps)) as Cp.
  rewrite length_app in Cq, Cp.
  rewrite Hi, Ho, Hi', Ho'. split_and!; lia.
Qed.

(** ** The index of a table read from rows *)

Lemma filter_fmap_comm {A B} (P : B → Prop) `{∀ x, Decision (P x)} (g : A → B)
    (l : list A) :
  filter P (g <$> l) = g <$> filter (fun x => P (g x)) l.
Proof.
  induction l as [|x l IH]; [done |].
  rewrite fmap_cons, !filter_cons, IH. by destruct (decide (P (g x))).
Qed.

Lemma filter_ext_in {A} (P Q : A → Prop) `{∀ x, Decision (P x)} `{∀ x, Decision (Q x)}
    (l : list A) :
  (∀ x, x ∈ l → P x ↔ Q x) → filter P l = filter Q l.
Proof.
  induction l as [|x l IH]; intros Hl; [done |].
  rewrite !filter_cons, IH by (intros y Hy; apply Hl; by apply list_elem_of_further).
  pose proof (Hl x (list_elem_of_here _ _)) as Hx.
  destruct (decide (P x)), (decide (Q x)); tauto.
Qed.

Lemma key_column_label (headerRow : list cell) (key : cell) :
  findSchoolIdHeader headerRow = Some key →
  ∃ j : nat,
    last (filter (fun i => column_key headerRow i = ToString (Some key))
                 (seq 0 (length headerRow))) = Some j.
Proof.
  intros Hfind. pose proof (find_index_from 0 headerRow) as H.
  rewrite Hfind in H. destruct H as (k & _ & Hk & _).
  pose proof (detected_header_truthy _ _ Hfind) as Htr.
  destruct (last _) as [j|] eqn:Hlast; [by exists j |].
  apply last_None in Hlast.
  assert (k ∈ filter (fun i => column_key headerRow i = ToString (Some key))
                     (seq 0 (length headerRow))) as Hin.
  { apply list_elem_of_filter. split.
    - unfold column_key. rewrite Hk. simpl. by rewrite Htr.
    - apply elem_of_seq. apply lookup_lt_Some in Hk. lia. }
  rewrite Hlast in Hin. by apply elem_of_nil in Hin.
Qed.

Lemma usable_cell (v : cell) : usable_id (Some v) = true ↔ v ≠ CStr "".
Proof.
  rewrite usable_id_spec. split.
  - intros [_ H] ->. done.
  - intros H. split; [done | congruence].
Qed.

(** X26.  Indexing the records made from raw rows.  The key of a row is
    read from the last column that carries the label of the key column,
    with the empty string for a missing or null cell; rows whose key cell
    is missing, null or the empty string are left out; the keys come in
    row order, each at its first occurrence, and each key leads to the
    record of the last row that has it.  Without a key column the index is
    empty. *)
Theorem index_of_rows (rows : list (list cell)) (headerRow : list cell) :
  match findSchoolIdHeader headerRow with
  | None => toKeyedBySchoolId (rowsToObjects rows headerRow) headerRow = JsMap.empty
  | Some key =>
      ∃ j : nat,
        last (filter (fun i => column_key headerRow i = ToString (Some key))
                     (seq 0 (length headerRow))) = Some j
        ∧ JsMap.keys (toKeyedBySchoolId (rowsToObjects rows headerRow) headerRow)
          = newSet ((fun r : list cell => ToString (Some (nullish_or (r !! j) (CStr ""))))
                      <$> filter (fun r : list cell =>
                                    nullish_or (r !! j) (CStr "") ≠ CStr "") rows)
        ∧ ∀ id : string,
            JsMap.get (toKeyedBySchoolId (rowsToObjects rows headerRow) headerRow) id
            = rowToObject headerRow
                <$> last (filter (fun r : list cell =>
                                    nullish_or (r !! j) (CStr "") ≠ CStr ""
                                    ∧ ToString (Some (nullish_or (r !! j) (CStr ""))) = id)
                                 rows)
  end.
Proof.
  rewrite toKeyedBySchoolId_unfold.
  destruct (findSchoolIdHeader headerRow) as [key|] eqn:Hfind; [| done].
  destruct (key_column_label _ _ Hfind) as [j Hj]. exists j. split; [done |].
  assert (∀ r : list cell,
            rowToObject headerRow r !! ToString (Some key)
            = Some (nullish_or (r !! j) (CStr ""))) as Hval.
  { intros r. unfold rowToObject. by rewrite row_loop_lookup, Hj. }
  unfold rowsToObjects. change (map (rowToObject headerRow) rows)
    with (rowToObject headerRow <$> rows). split.
  - rewrite index_loop_keys, filter_fmap_comm, <- list_fmap_compose. f_equal.
    rewrite (filter_ext_in _ (fun r : list cell => nullish_or (r !! j) (CStr "") ≠ CStr "")).
    + apply list_fmap_ext. intros i r _. simpl. by rewrite Hval.
    + intros r _. rewrite Hval. apply usable_cell.
  - intros id. rewrite index_loop_get, filter_fmap_comm, fmap_last. f_equal. f_equal.
    apply filter_ext_in. intros r _. unfold indexed_under. rewrite Hval. split.
    + intros (_ & H2 & H3). split; [congruence | done].
    + intros [H1 H2]. split_and!; [done | congruence | done].
Qed.

(** ** The join of the snapshot server *)

Lemma snap_getJoinedFull_fields (env : Env) (st st' : Snap.Store)
    (r : outcome JoinResult) :
  Snap.getJoinedFull env st = (r, st') →
  Snap.lastUpdated (Snap.SNAPSHOT st') = Snap.lastUpdated (Snap.SNAPSHOT st)
  ∧ Snap.lastReason (Snap.SNAPSHOT st') = Snap.lastReason (Snap.SNAPSHOT st)
  ∧ Snap.disk st' = Snap.disk st
  ∧ match r with
    | Return j =>
        Snap.joinedMatched (Snap.SNAPSHOT st') = Some j
        ∧ (Snap.joinedMatched (Snap.SNAPSHOT st) = None →
           ∃ p q : Dataset,
             j = innerJoin p q
             ∧ Snap.performance (Snap.SNAPSHOT st') = Some q
             ∧ (Snap.profile (Snap.SNAPSHOT st') = Some p
                ∨ (p = mkDataset [] [] [] ∧ Snap.profile (Snap.SNAPSHOT st') = None)))
    | Throw _ =>
        Snap.joinedMatched (Snap.SNAPSHOT st') = Snap.joinedMatched (Snap.SNAPSHOT st)
    end.
Proof.
  destruct (Snap.joinedMatched (Snap.SNAPSHOT st)) as [j|] eqn:Hj.
  - rewrite (snap_getJoinedFull_hit env st j Hj). intros [= <- <-]. simpl.
    by rewrite Hj.
  - unfold Snap.getJoinedFull, Snap.count_request, Snap.count_miss.
    rewrite mbind_run, modify_run. cbv beta iota.
    rewrite mbind_run. unfold get_state at 1. cbv beta iota.
    cbn [Snap.with_stats Snap.SNAPSHOT]. rewrite Hj.
    rewrite mbind_run, modify_run. cbv beta iota.
    set (st1 := Snap.with_stats _ (Snap.with_stats _ st)).
    assert (Snap.SNAPSHOT st1 = Snap.SNAPSHOT st ∧ Snap.disk st1 = Snap.disk st)
      as [Hs1 Hd1] by done.
    rewrite mbind_run.
    destruct (Snap.getProfile env st1) as [rp st2] eqn:Ep.
    apply snap_getProfile_fields in Ep as (Pq & Pj & Pu & Pr & Pd & Pp).
    rewrite Hs1 in Pq, Pj, Pu, Pr. rewrite Hd1 in Pd.
    destruct rp as [p|msg]; [| intros [= <- <-]; by rewrite Pj, Pu, Pr, Pd].
    rewrite mbind_run.
    destruct (Snap.getPerformanceFull env st2) as [rq st3] eqn:Eq.
    apply snap_getPerformanceFull_fields in Eq as (Qp & Qj & Qu & Qr & Qd & Qq).
    destruct rq as [q|msg];
      [| intros [= <- <-]; by rewrite Qj, Qu, Qr, Qd, Pj, Pu, Pr, Pd].
    rewrite mbind_run, modify_run. cbv beta iota.
    intros [= <- <-]. simpl. rewrite Qu, Qr, Qd, Pu, Pr, Pd.
    split_and!; try done. intros _. exists p, q. split_and!; [done | done |].
    rewrite Qp. destruct Pp as [Pp|(-> & _ & Pp)]; [by left | by right].
Qed.

(** X27.  [getJoinedFull] of the snapshot server keeps what it returns: a
    returned join is the one the snapshot holds afterwards, and a thrown
    error leaves the stored join as it was.  A join computed on a miss is
    the inner join of two tables, the second the performance table now in
    the snapshot, the first the profile now in the snapshot or else the
    empty table, the profile of the snapshot being [null].  The time
    stamp, the reason and the disk are not touched. *)
Theorem snap_getJoinedFull_keeps_its_answer (env : Env) (st : Snap.Store) :
  let run := Snap.getJoinedFull env st in
  Snap.lastUpdated (Snap.SNAPSHOT run.2) = Snap.lastUpdated (Snap.SNAPSHOT st)
  ∧ Snap.lastReason (Snap.SNAPSHOT run.2) = Snap.lastReason (Snap.SNAPSHOT st)
  ∧ Snap.disk run.2 = Snap.disk st
  ∧ match run.1 with
    | Return j =>
        Snap.joinedMatched (Snap.SNAPSHOT run.2) = Some j
        ∧ (Snap.joinedMatched (Snap.SNAPSHOT st) = None →
           ∃ p q : Dataset,
             j = innerJoin p q
             ∧ Snap.performance (Snap.SNAPSHOT run.2) = Some q
             ∧ (Snap.profile (Snap.SNAPSHOT run.2) = Some p
                ∨ (p = mkDataset [] [] []
                   ∧ Snap.profile (Snap.SNAPSHOT run.2) = None)))
    | Throw _ =>
        Snap.joinedMatched (Snap.SNAPSHOT run.2) = Snap.joinedMatched (Snap.SNAPSHOT st)
    end.
Proof.
  cbv zeta. destruct (Snap.getJoinedFull env st) as [r st'] eqn:E.
  apply (snap_getJoinedFull_fields env st st' r E).
Qed.

(** ** Expiry *)




(** ** What a refresh reports *)



